(** * mbext-database: the in-memory collection engine and its persistence

    A shallow embedding of [src/index.ts] (the class [Database<T>] that owns
    a [Map<string, T>]) and, in [Module Legacy], of the older class of the
    repository's root [index.ts] / [index.js] that extends [Map].

    Modelling choices, all of them about the JavaScript run time and none
    about the code of the repository:
    - a field value is a primitive or an object; symbols and BigInts are
      not modelled. A number is an integer, an infinity or NaN ([VNum],
      [VInfinity], [VNaN]); the integer 0 stands for both zeros, which no
      operation of the engine tells apart; fractions are not modelled. An object ([VObject]: a [Date], a wrapper
      object, a function) is what the engine observes of it: its identity,
      what a relational comparison converts it to, and what [String] and
      [JSON.stringify] make of it. These conversions return: an object on
      which one of them throws is not modelled, so the [catch] of
      [findLike] is not entered. [JSON.stringify] writes a scalar for an
      object or leaves it out: arrays and nested plain objects are not
      modelled;
    - a document is an object of such fields, a [gmap string value];
      reading a missing property gives [VUndefined];
    - a string is the sequence of its code units, of which the model has
      256; those below 128 are the ASCII characters, and what
      [toLowerCase] makes of a string with other code units is the run
      time's, see [Runtime];
    - [Array.prototype.sort] gives the order ECMA-262 prescribes when the
      comparison function is a consistent comparator for the elements of
      the array, and an order of the run time's choice otherwise, see
      [sort];
    - a JavaScript [Map] is the list of its entries in insertion order;
    - a text is identified with the JSON document it denotes, see [text];
    - a validator is a total function to booleans: it does not throw;
    - [console] output is not modelled. *)

From Stdlib Require Import ZArith String Ascii List Bool Lia DecimalString.
From Stdlib Require Import Permutation Sorted OrderedTypeEx.
From stdpp Require Import base option gmap strings.
Import ListNotations.

Open Scope string_scope.
Open Scope list_scope.

(** ** Completions: a call returns normally or throws *)

Inductive completion (A : Type) : Type :=
| Normal (a : A)
| Throw (message : string).

Arguments Normal {A} a.
Arguments Throw {A} message.

(** ** JavaScript values and the operators the engine applies to them *)

(** A Number. *)
Inductive number : Type :=
| NaN
| Infinity (negative : bool)
| Integer (z : Z).

#[global] Instance number_eq_dec : EqDecision number.
Proof. solve_decision. Defined.

(** What [ToPrimitive] gives a relational comparison for an object: a
    string, or the number its primitive value converts to. *)
Inductive operand : Type :=
| OString (s : string)
| ONumber (n : number).

#[global] Instance operand_eq_dec : EqDecision operand.
Proof. solve_decision. Defined.

(** The JSON scalars. *)
Inductive json : Type :=
| JNull
| JBool (b : bool)
| JNum (n : Z)
| JStr (s : string).

#[global] Instance json_eq_dec : EqDecision json.
Proof. solve_decision. Defined.

(** An object held in a field, as the engine observes it. For a [Date]:
    [asOperand] is its time value, [asString] the date in words, [asJSON]
    the string [toISOString] gives. [asJSON] is [None] for an object that
    [JSON.stringify] leaves out, a function. Two objects of one heap with
    the same [reference] are the same object. *)
Record object : Type := {
  reference : nat;
  asOperand : operand;
  asString : string;
  asJSON : option json
}.

#[global] Instance object_eq_dec : EqDecision object.
Proof. solve_decision. Defined.

Inductive value : Type :=
| VUndefined
| VNull
| VBool (b : bool)
| VNum (n : Z)
| VNaN
| VInfinity (negative : bool)
| VStr (s : string)
| VObject (o : object).

#[global] Instance value_eq_dec : EqDecision value.
Proof. solve_decision. Defined.

(** [a === b]: NaN is not equal to itself, and two objects are equal when
    they are the same object. *)
Definition strictEquals (a b : value) : bool :=
  match a with
  | VNaN => false
  | _ => bool_decide (a = b)
  end.

(** [String(v)]. *)
Definition toString (v : value) : string :=
  match v with
  | VUndefined => "undefined"
  | VNull => "null"
  | VBool true => "true"
  | VBool false => "false"
  | VNum n => NilZero.string_of_int (Z.to_int n)
  | VNaN => "NaN"
  | VInfinity false => "Infinity"
  | VInfinity true => "-Infinity"
  | VStr s => s
  | VObject o => asString o
  end.

(** [String(v)] where the source calls it under [try]. *)
Definition tryString (v : value) : completion string := Normal (toString v).

Fixpoint allChars (p : ascii -> bool) (s : string) : bool :=
  match s with
  | EmptyString => true
  | String c rest => p c && allChars p rest
  end.

Definition isAscii (c : ascii) : bool := (nat_of_ascii c <? 128)%nat.

(** [s.toLowerCase()] for a string of ASCII characters: the letters A to Z
    are lowered one by one. *)
Definition lowerAscii (c : ascii) : ascii :=
  let n := nat_of_ascii c in
  if (65 <=? n)%nat && (n <=? 90)%nat then ascii_of_nat (n + 32) else c.

Fixpoint lowerAsciiString (s : string) : string :=
  match s with
  | EmptyString => EmptyString
  | String c rest => String (lowerAscii c) (lowerAsciiString rest)
  end.

(** [hay.startsWith(needle)], [hay.includes(needle)], [hay.endsWith(needle)]. *)
Definition startsWith (hay needle : string) : bool := String.prefix needle hay.

Fixpoint includes (hay needle : string) : bool :=
  String.prefix needle hay ||
  match hay with
  | EmptyString => false
  | String _ rest => includes rest needle
  end.

Definition endsWith (hay needle : string) : bool :=
  (String.length needle <=? String.length hay)%nat &&
  String.eqb
    (substring (String.length hay - String.length needle) (String.length needle) hay)
    needle.

(** ** The random source

    [Math.floor(Math.random() * 16)] is one of the sixteen values below;
    [toString16] is its [toString(16)]. *)

Inductive nibble : Type :=
| x0 | x1 | x2 | x3 | x4 | x5 | x6 | x7
| x8 | x9 | xa | xb | xc | xd | xe | xf.

Definition toString16 (n : nibble) : ascii :=
  match n with
  | x0 => "0" | x1 => "1" | x2 => "2" | x3 => "3"
  | x4 => "4" | x5 => "5" | x6 => "6" | x7 => "7"
  | x8 => "8" | x9 => "9" | xa => "a" | xb => "b"
  | xc => "c" | xd => "d" | xe => "e" | xf => "f"
  end%char.

Definition isLowerHex (c : ascii) : bool :=
  let n := nat_of_ascii c in
  ((48 <=? n)%nat && (n <=? 57)%nat) || ((97 <=? n)%nat && (n <=? 102)%nat).

(** ** The run time

    What the engine takes from the run time besides [JSON] and [Map]:
    - [StringToNumber] of ECMA-262 restricted to the numbers of the model,
      which is only reached when a string meets a non-string in a
      relational comparison;
    - the [n]-th value [Math.floor(Math.random() * 16)] takes;
    - [String.prototype.toLowerCase] on a string that is not all ASCII:
      the Unicode lowering depends on the context of a character (the
      final sigma), so nothing is assumed of it;
    - what [Array.prototype.sort] does when the comparison function is not
      a consistent comparator for the elements of the array, where
      ECMA-262 leaves the order to the implementation: the moves it makes
      in the array, each taking the element at one index to another
      index. *)
Class Runtime : Type := {
  StringToNumber : string -> number;
  randomNibble : nat -> nibble;
  toLowerCaseBeyondAscii : string -> string;
  sortMoves : forall A : Type, (A -> A -> Z) -> list A -> list (nat * nat)
}.

Section Operators.
Context `{runtime : Runtime}.

(** [s.toLowerCase()]. *)
Definition toLowerCase (s : string) : string :=
  if allChars isAscii s then lowerAsciiString s else toLowerCaseBeyondAscii s.

Definition ToNumber (v : value) : number :=
  match v with
  | VUndefined => NaN
  | VNull => Integer 0
  | VBool true => Integer 1
  | VBool false => Integer 0
  | VNum n => Integer n
  | VNaN => NaN
  | VInfinity negative => Infinity negative
  | VStr s => StringToNumber s
  | VObject o =>
      match asOperand o with
      | OString s => StringToNumber s
      | ONumber n => n
      end
  end.

(** The string a relational comparison sees in an operand, if it sees
    one. *)
Definition stringOperand (v : value) : option string :=
  match v with
  | VStr s => Some s
  | VObject o =>
      match asOperand o with
      | OString s => Some s
      | ONumber _ => None
      end
  | _ => None
  end.

(** [Number::lessThan]: [None] is its [undefined] result, when an operand
    is NaN. *)
Definition numberLessThan (x y : number) : option bool :=
  match x, y with
  | NaN, _ => None
  | _, NaN => None
  | Integer a, Integer b => Some (a <? b)%Z
  | Infinity negative, Integer _ => Some negative
  | Integer _, Infinity negative => Some (negb negative)
  | Infinity negative, Infinity negative' => Some (negative && negb negative')
  end.

(** The abstract relational comparison [a < b]. Two strings are compared
    by code units, anything else as numbers. *)
Definition IsLessThan (a b : value) : option bool :=
  match stringOperand a, stringOperand b with
  | Some x, Some y => Some (String.ltb x y)
  | _, _ => numberLessThan (ToNumber a) (ToNumber b)
  end.

Definition lessThan (a b : value) : bool :=
  match IsLessThan a b with Some r => r | None => false end.

Definition greaterThan (a b : value) : bool := lessThan b a.

Definition lessOrEqual (a b : value) : bool :=
  match IsLessThan b a with Some r => negb r | None => false end.

Definition greaterOrEqual (a b : value) : bool :=
  match IsLessThan a b with Some r => negb r | None => false end.

End Operators.

(** ** Documents *)

Abbreviation doc := (gmap string value).

(** [data[key]]. *)
Definition prop (data : doc) (key : string) : value :=
  default VUndefined (data !! key).

(** [{ ...existingData, ...data }]: the fields of the patch override. *)
Definition spread (existingData data : doc) : doc := data ∪ existingData.

(** [Object.keys(data)]. *)
Definition keys (data : doc) : list string := List.map fst (map_to_list data).

(** ** The types of the public surface *)

Inductive SortDirection : Type := asc | desc.

Inductive FilterOperator : Type :=
| OpEq | OpNe | OpGt | OpLt | OpGe | OpLe
| OpContains | OpStartsWith | OpEndsWith.

Record FilterCondition : Type := {
  field : string;
  operator : FilterOperator;
  cvalue : value
}.

(** [CollectionValidator<T>]: an entry may be present and hold [undefined]. *)
Abbreviation CollectionValidator := (list (string * option (value -> bool))).

(** [SortOptions<T>], as the list [Object.entries(sort)] makes of it. *)
Abbreviation SortOptions := (list (string * SortDirection)).

(** The [{ id, data }] objects the read operations return. *)
Record found : Type := Found { id : string; fdata : doc }.

#[global] Instance found_eq_dec : EqDecision found.
Proof. solve_decision. Defined.

(** ** [Map<string, V>]: the entries in insertion order *)

Module JsMap.
Section JsMap.
Context {V : Type}.

Fixpoint get (m : list (string * V)) (key : string) : option V :=
  match m with
  | [] => None
  | (k, v) :: rest => if String.eqb k key then Some v else get rest key
  end.

Definition has (m : list (string * V)) (key : string) : bool :=
  match get m key with Some _ => true | None => false end.

(** A present key keeps its place and takes the new value; a new key goes
    to the end. *)
Fixpoint set (m : list (string * V)) (key : string) (v : V) : list (string * V) :=
  match m with
  | [] => [(key, v)]
  | (k, w) :: rest =>
      if String.eqb k key then (k, v) :: rest else (k, w) :: set rest key v
  end.

(** A [Map] holds a key at most once, see [uniqueKeys]; on other lists
    every entry of the key goes. *)
Fixpoint delete (m : list (string * V)) (key : string) : list (string * V) :=
  match m with
  | [] => []
  | (k, w) :: rest =>
      if String.eqb k key then delete rest key else (k, w) :: delete rest key
  end.

Definition uniqueKeys (m : list (string * V)) : Prop := NoDup (List.map fst m).

Definition size (m : list (string * V)) : Z := Z.of_nat (List.length m).

Definition values (m : list (string * V)) : list V := List.map snd m.

End JsMap.
End JsMap.

(** ** Arrays *)

(** [a.slice(start, end)] for integer arguments: a negative index counts
    from the end of the array. *)
Definition slice {A : Type} (a : list A) (start end_ : Z) : list A :=
  let len := Z.of_nat (List.length a) in
  let k := if (start <? 0)%Z then Z.max (len + start) 0 else Z.min start len in
  let final := if (end_ <? 0)%Z then Z.max (len + end_) 0 else Z.min end_ len in
  firstn (Z.to_nat (final - k)) (skipn (Z.to_nat k) a).

(** Taking the element at index [from] out of the array and putting it
    back at index [to]; nothing happens when there is no such element. *)
Definition move {A : Type} (a : list A) (from to : nat) : list A :=
  match nth_error a from with
  | Some x =>
      let rest := firstn from a ++ skipn (S from) a in
      firstn to rest ++ x :: skipn to rest
  | None => a
  end.

Section Sort.
Context {A : Type}.
Variable compare : A -> A -> Z.

(** [compare] is a consistent comparator for the elements of [a], as
    ECMA-262 defines it: every element compares equal to itself, comparing
    equal is symmetric and transitive, and so are comparing less and
    comparing greater. A comparison function of the model is a function,
    so that it returns the same number each time. *)
Definition consistent (a : list A) : bool :=
  forallb
    (fun x =>
       (compare x x =? 0)%Z &&
       forallb
         (fun y =>
            implb (compare x y =? 0)%Z (compare y x =? 0)%Z &&
            forallb
              (fun z =>
                 implb ((compare x y =? 0)%Z && (compare y z =? 0)%Z)
                       (compare x z =? 0)%Z &&
                 implb ((compare x y <? 0)%Z && (compare y z <? 0)%Z)
                       (compare x z <? 0)%Z &&
                 implb ((0 <? compare x y)%Z && (0 <? compare y z)%Z)
                       (0 <? compare x z)%Z)
              a)
         a)
    a.

(** The stable insertion sort. [sortInsert x sorted] puts [x], which came
    before the elements of [sorted] in the array, before the first element
    it is not greater than. *)
Fixpoint sortInsert (x : A) (sorted : list A) : list A :=
  match sorted with
  | [] => [x]
  | y :: rest =>
      if (0 <? compare x y)%Z then y :: sortInsert x rest else x :: y :: rest
  end.

Fixpoint insertionSort (a : list A) : list A :=
  match a with
  | [] => []
  | x :: rest => sortInsert x (insertionSort rest)
  end.

(** No element is greater than a later one. *)
Definition ordered (l : list A) : Prop :=
  StronglySorted (fun x y => (compare x y <= 0)%Z) l.

(** The elements that compare equal to an element [x] of [a] are in
    [sorted] in the order they have in [a]. *)
Definition stable (a sorted : list A) : Prop :=
  forall x, In x a ->
    List.filter (fun y => (compare x y =? 0)%Z) sorted =
    List.filter (fun y => (compare x y =? 0)%Z) a.

End Sort.

(** [a.sort(compare)]. For a consistent comparator ECMA-262 asks for the
    elements in order, those that compare equal in the order they had:
    there is one such arrangement, see [sorted_stable_unique], and
    [insertionSort] gives it. Otherwise the order is
    implementation-defined: the array is rearranged by the moves of the
    run time. *)
Definition sort `{runtime : Runtime} {A : Type} (compare : A -> A -> Z) (a : list A)
  : list A :=
  if consistent compare a then insertionSort compare a
  else fold_left (fun w m => move w (fst m) (snd m)) (sortMoves A compare a) a.

(** ** Texts and JSON

    A text of the backing store is represented by what [JSON.parse] makes
    of it: either it is the JSON text of a snapshot, an array of
    [[identifier, document]] pairs, or [JSON.parse] rejects it. The
    concrete syntax belongs to the run time's [JSON] object. Texts that
    parse to something else than an array of pairs are not modelled. *)

Inductive text : Type :=
| Snapshot (entries : list (string * gmap string json))
| Malformed (raw : string).

(** What [JSON.stringify] writes for a property: a property whose value is
    [undefined] is left out, NaN and the infinities are written as [null],
    and an object as its [toJSON] or its primitive value says. *)
Definition toJSON (v : value) : option json :=
  match v with
  | VUndefined => None
  | VNull => Some JNull
  | VBool b => Some (JBool b)
  | VNum n => Some (JNum n)
  | VNaN => Some JNull
  | VInfinity _ => Some JNull
  | VStr s => Some (JStr s)
  | VObject o => asJSON o
  end.

Definition ofJSON (j : json) : value :=
  match j with
  | JNull => VNull
  | JBool b => VBool b
  | JNum n => VNum n
  | JStr s => VStr s
  end.

Definition JSON_stringify (entries : list (string * doc)) : text :=
  Snapshot (List.map (fun e => (fst e, omap toJSON (snd e))) entries).

Definition JSON_parse (t : text) : completion (list (string * doc)) :=
  match t with
  | Snapshot entries =>
      Normal (List.map (fun e => (fst e, ofJSON <$> snd e)) entries)
  | Malformed _ => Throw "SyntaxError"
  end.

(** The truthiness of a string: only the empty string is falsy, and a
    snapshot is at least [[]]. *)
Definition truthy (t : text) : bool :=
  match t with
  | Malformed EmptyString => false
  | _ => true
  end.

(** ** The host

    The object behind [storageType] with its two methods; a dynamic
    property is a text or is absent. A call of [setDynamicProperty]
    returns or throws, and leaves the host in a new state either way. *)
Class Host (StorageType : Type) : Type := {
  getDynamicProperty : StorageType -> string -> completion (option text);
  setDynamicProperty : StorageType -> string -> text -> completion unit * StorageType
}.

(** ** The class [Database<T>] of [src/index.ts] *)

(** The fields of the class, and [drawn]: how many values of the random
    source were used so far. *)
Record Database (StorageType : Type) : Type := {
  collectionName : string;
  storageType : StorageType;
  collectionValidators : option CollectionValidator;
  data : list (string * doc);
  drawn : nat
}.

Arguments collectionName {StorageType} d.
Arguments storageType {StorageType} d.
Arguments collectionValidators {StorageType} d.
Arguments data {StorageType} d.
Arguments drawn {StorageType} d.

Section Database.
Context `{runtime : Runtime} `{host : Host StorageType}.

Implicit Type db : Database StorageType.

Definition withData db (m : list (string * doc)) : Database StorageType :=
  {| collectionName := collectionName db; storageType := storageType db;
     collectionValidators := collectionValidators db; data := m; drawn := drawn db |}.

Definition withStorage db (st : StorageType) : Database StorageType :=
  {| collectionName := collectionName db; storageType := st;
     collectionValidators := collectionValidators db; data := data db;
     drawn := drawn db |}.

Definition withDrawn db (n : nat) : Database StorageType :=
  {| collectionName := collectionName db; storageType := storageType db;
     collectionValidators := collectionValidators db; data := data db; drawn := n |}.

Definition saveChanges db : bool * Database StorageType :=
  let entries := data db in
  match setDynamicProperty (storageType db) (collectionName db) (JSON_stringify entries) with
  | (Normal _, st) => (true, withStorage db st)
  | (Throw _, st) => (false, withStorage db st)
  end.

(** Whether the host takes the snapshot of [entries] under the key of
    the collection: what [saveChanges] returns when [data] is [entries]. *)
Definition accepts db (entries : list (string * doc)) : bool :=
  match fst (setDynamicProperty (storageType db) (collectionName db)
               (JSON_stringify entries)) with
  | Normal _ => true
  | Throw _ => false
  end.

(** [Array.from({ length }, () => ...).join('')], reading the random
    source from [position] on. *)
Fixpoint hexDigits (length position : nat) : string :=
  match length with
  | O => EmptyString
  | S n => String (toString16 (randomNibble position)) (hexDigits n (S position))
  end.

(** The [do ... while] loop of [generateId]; it stops when the candidate
    is not a key. [None]: the loop is still running after [fuel] rounds. *)
Fixpoint generateId (fuel : nat) db : option (string * Database StorageType) :=
  match fuel with
  | O => None
  | S fuel' =>
      let id := hexDigits 16 (drawn db) in
      let db' := withDrawn db (drawn db + 16) in
      if JsMap.has (data db') id then generateId fuel' db' else Some (id, db')
  end.

(** The candidate of round [k] of that loop, counting from 0. *)
Definition candidate db (k : nat) : string := hexDigits 16 (drawn db + 16 * k).

Definition validate db (data' : doc) : bool :=
  match collectionValidators db with
  | None => true
  | Some validators =>
      forallb (fun entry =>
                 match snd entry with
                 | None => true
                 | Some validator => validator (prop data' (fst entry))
                 end) validators
  end.

Definition evaluateCondition (data' : doc) (condition : FilterCondition) : bool :=
  let value := prop data' (field condition) in
  let conditionValue := cvalue condition in
  match operator condition with
  | OpEq => strictEquals value conditionValue
  | OpNe => negb (strictEquals value conditionValue)
  | OpGt => greaterThan value conditionValue
  | OpLt => lessThan value conditionValue
  | OpGe => greaterOrEqual value conditionValue
  | OpLe => lessOrEqual value conditionValue
  | OpContains =>
      includes (toLowerCase (toString value)) (toLowerCase (toString conditionValue))
  | OpStartsWith =>
      startsWith (toLowerCase (toString value)) (toLowerCase (toString conditionValue))
  | OpEndsWith =>
      endsWith (toLowerCase (toString value)) (toLowerCase (toString conditionValue))
  end.

Definition clear db : bool * Database StorageType :=
  saveChanges (withData db []).

Definition delete (id : string) db : bool * Database StorageType :=
  if negb (JsMap.has (data db) id) then (false, db)
  else
    let (saved, db') := saveChanges (withData db (JsMap.delete (data db) id)) in
    if negb saved then (false, db') else (true, db').

(** [None]: [generateId] is still running after [fuel] rounds. *)
Definition create (fuel : nat) (data' : doc) db
  : option (completion (option string) * Database StorageType) :=
  if negb (validate db data') then Some (Throw "Invalid data format", db)
  else
    match generateId fuel db with
    | None => None
    | Some (id, db1) =>
        let db2 := withData db1 (JsMap.set (data db1) id data') in
        let (saved, db3) := saveChanges db2 in
        if negb saved
        then Some (Normal None, withData db3 (JsMap.delete (data db3) id))
        else Some (Normal (Some id), db3)
    end.

Definition update (id : string) (data' : doc) db : completion bool * Database StorageType :=
  match JsMap.get (data db) id with
  | None => (Normal false, db)
  | Some existingData =>
      let updatedData := spread existingData data' in
      if negb (validate db updatedData) then (Throw "Invalid data format", db)
      else
        let originalData := JsMap.get (data db) id in
        let db1 := withData db (JsMap.set (data db) id updatedData) in
        let (saved, db2) := saveChanges db1 in
        match saved, originalData with
        | false, Some original =>
            (Normal false, withData db2 (JsMap.set (data db2) id original))
        | _, _ => (Normal true, db2)
        end
  end.

Definition findMany (predicate : option (doc -> bool)) db : list found :=
  match predicate with
  | Some p =>
      List.map (fun e => Found (fst e) (snd e))
               (List.filter (fun e => p (snd e)) (data db))
  | None => List.map (fun e => Found (fst e) (snd e)) (data db)
  end.

Definition findOne (predicate : doc -> bool) db : option found :=
  head (findMany (Some predicate) db).

Definition findById (id : string) db : option found :=
  match JsMap.get (data db) id with
  | Some d => Some (Found id d)
  | None => None
  end.

(** A field on which [String] throws is a field that does not match: the
    [catch] of the source. [String] returns on every value of the model
    ([tryString]), so that this branch is not entered. *)
Definition findLike (term : string) (fields : option (list string)) db : list found :=
  let lowerCaseTerm := toLowerCase term in
  List.map (fun e => Found (fst e) (snd e))
    (List.filter
       (fun e =>
          let searchFields :=
            match fields with Some fs => fs | None => keys (snd e) end in
          existsb (fun f =>
                     match tryString (prop (snd e) f) with
                     | Normal s => includes (toLowerCase s) lowerCaseTerm
                     | Throw _ => false
                     end)
                  searchFields)
       (data db)).

(** The comparison function [query] gives to [sort]. *)
Fixpoint compareEntries (sortEntries : SortOptions) (a b : doc) : Z :=
  match sortEntries with
  | [] => 0
  | (field, direction) :: rest =>
      let aVal := prop a field in
      let bVal := prop b field in
      if strictEquals aVal bVal then compareEntries rest a b
      else
        let comparison := if lessThan aVal bVal then (-1)%Z else 1%Z in
        match direction with
        | asc => comparison
        | desc => (- comparison)%Z
        end
  end.

(** The entries [query] keeps, before [sort] and [slice]. *)
Definition matching (conditions : list FilterCondition) db : list (string * doc) :=
  List.filter
    (fun e => forallb (fun condition => evaluateCondition (snd e) condition) conditions)
    (data db).

Definition query (conditions : list FilterCondition) (sort' : option SortOptions)
    (limit : option Z) db : list found :=
  let results := matching conditions db in
  let results :=
    match sort' with
    | Some sortEntries =>
        sort (fun x y => compareEntries sortEntries (snd x) (snd y)) results
    | None => results
    end in
  let results :=
    match limit with
    | Some n => slice results 0 n
    | None => results
    end in
  List.map (fun e => Found (fst e) (snd e)) results.

Definition size db : Z := JsMap.size (data db).

Definition count (condition : option FilterCondition) db : Z :=
  match condition with
  | None => size db
  | Some c =>
      Z.of_nat
        (List.length
           (List.filter (fun d => evaluateCondition d c) (JsMap.values (data db))))
  end.

Definition export db : text := JSON_stringify (data db).

Definition import (text' : text) db : bool * Database StorageType :=
  match JSON_parse text' with
  | Throw _ => (false, db)
  | Normal entries =>
      let validEntries := List.filter (fun e => validate db (snd e)) entries in
      let db1 := snd (clear db) in
      let db2 :=
        fold_left (fun acc e => withData acc (JsMap.set (data acc) (fst e) (snd e)))
                  validEntries db1 in
      saveChanges db2
  end.

(** The [catch] branch of [initialize]. *)
Definition recover db : Database StorageType :=
  snd (saveChanges (snd (clear db))).

Definition initialize db : Database StorageType :=
  match getDynamicProperty (storageType db) (collectionName db) with
  | Normal (Some storedData) =>
      if truthy storedData then
        match JSON_parse storedData with
        | Normal entries =>
            fold_left
              (fun acc e =>
                 if validate acc (snd e)
                 then withData acc (JsMap.set (data acc) (fst e) (snd e))
                 else acc)
              entries db
        | Throw _ => recover db
        end
      else db
  | Normal None => db
  | Throw _ => recover db
  end.

(** [new Database(collectionName, storageType, collectionValidators)],
    when [position] values of the random source were used before. *)
Definition construct (collectionName' : string) (storageType' : StorageType)
    (collectionValidators' : option CollectionValidator) (position : nat)
  : completion (Database StorageType) :=
  if (String.length collectionName' <? 1)%nat || (16 <? String.length collectionName')%nat
  then Throw "Collection name must be between 1 and 16 characters"
  else Normal (initialize {| collectionName := collectionName';
                             storageType := storageType';
                             collectionValidators := collectionValidators';
                             data := []; drawn := position |}).

(** The calls [create(d1)], ..., [create(dn)] made one after the other by
    a caller that catches what a call throws, with what each call gave. *)
Fixpoint createEach (fuel : nat) (items : list doc) db
  : option (list (completion (option string)) * Database StorageType) :=
  match items with
  | [] => Some ([], db)
  | item :: rest =>
      match create fuel item db with
      | None => None
      | Some (outcome, db') =>
          match createEach fuel rest db' with
          | None => None
          | Some (outcomes, db'') => Some (outcome :: outcomes, db'')
          end
      end
  end.

(** [items.map(item => this.create(item))]: when a call throws, [map]
    throws and the results so far are lost; what the calls before it did
    stays done. *)
Fixpoint createMany (fuel : nat) (items : list doc) db
  : option (completion (list (option string)) * Database StorageType) :=
  match items with
  | [] => Some (Normal [], db)
  | item :: rest =>
      match create fuel item db with
      | None => None
      | Some (Throw e, db') => Some (Throw e, db')
      | Some (Normal result, db') =>
          match createMany fuel rest db' with
          | None => None
          | Some (Throw e, db'') => Some (Throw e, db'')
          | Some (Normal results, db'') => Some (Normal (result :: results), db'')
          end
      end
  end.

(** [updates.map(({ id, data }) => this.update(id, data))]. *)
Fixpoint updateMany (updates : list (string * doc)) db
  : completion (list bool) * Database StorageType :=
  match updates with
  | [] => (Normal [], db)
  | (id, data') :: rest =>
      match update id data' db with
      | (Throw e, db') => (Throw e, db')
      | (Normal result, db') =>
          match updateMany rest db' with
          | (Throw e, db'') => (Throw e, db'')
          | (Normal results, db'') => (Normal (result :: results), db'')
          end
      end
  end.

(** [ids.map(id => this.delete(id))]. *)
Fixpoint deleteMany (ids : list string) db : list bool * Database StorageType :=
  match ids with
  | [] => ([], db)
  | id :: rest =>
      let (result, db') := delete id db in
      let (results, db'') := deleteMany rest db' in
      (result :: results, db'')
  end.

(** Every document of the map passes [validate]. *)
Definition allValid db : Prop :=
  forall id d, In (id, d) (data db) -> validate db d = true.

(** What the operations make of the map of [db]: they leave it, empty
    it, set a document that passes [validate], or delete a key. *)
Inductive evolves db : list (string * doc) -> Prop :=
| evolves_same : evolves db (data db)
| evolves_clear : evolves db []
| evolves_set m id d :
    evolves db m -> validate db d = true -> evolves db (JsMap.set m id d)
| evolves_delete m id : evolves db m -> evolves db (JsMap.delete m id).

End Database.

(** The identifiers among the results of [create]. *)
Fixpoint identifiers (outcomes : list (completion (option string))) : list string :=
  match outcomes with
  | [] => []
  | Normal (Some id) :: rest => id :: identifiers rest
  | _ :: rest => identifiers rest
  end.

(** A value [JSON.parse] reads back as it was written: [null], a boolean,
    an integer or a string. The others are left out ([undefined], a
    function) or written as another value (NaN and the infinities as
    [null], a [Date] as a string). *)
Definition scalar (v : value) : bool :=
  match v with
  | VNull | VBool _ | VNum _ | VStr _ => true
  | VUndefined | VNaN | VInfinity _ | VObject _ => false
  end.


(** A document [JSON.stringify] writes in full and as it is. *)
Definition representable (d : doc) : bool :=
  forallb (fun kv => scalar (snd kv)) (map_to_list d).

(** The values a field of a sort may hold in the documents that are
    sorted for the comparison to be consistent: numbers other than NaN
    in all of them, or strings in all of them. *)
Definition isNumber (v : value) : bool :=
  match v with
  | VNum _ | VInfinity _ => true
  | _ => false
  end.

Definition isString (v : value) : bool :=
  match v with
  | VStr _ => true
  | _ => false
  end.

Definition comparable (sortEntries : SortOptions) (documents : list doc) : Prop :=
  forall f direction, In (f, direction) sortEntries ->
    (forall d, In d documents -> isNumber (prop d f) = true) \/
    (forall d, In d documents -> isString (prop d f) = true).

(** Two documents with the same value in every field of the sort. *)
Definition sameSortKey (sortEntries : SortOptions) (a b : doc) : bool :=
  forallb (fun entry => strictEquals (prop a (fst entry)) (prop b (fst entry))) sortEntries.

(** What the comparison function of [query] makes of the two values of a
    field: 0 when they are equal, -1 when the first is less, 1 otherwise. *)
Definition compareValues `{runtime : Runtime} (u v : value) : Z :=
  if strictEquals u v then 0%Z else if lessThan u v then (-1)%Z else 1%Z.

(** A kind of values that [===] and [<] order in a line. *)
Definition linear `{runtime : Runtime} (kind : value -> bool) : Prop :=
  (forall u, kind u = true -> compareValues u u = 0%Z) /\
  (forall u v, kind u = true -> kind v = true ->
               compareValues v u = (- compareValues u v)%Z) /\
  (forall u v, kind u = true -> kind v = true -> compareValues u v = 0%Z -> u = v) /\
  (forall u v w, kind u = true -> kind v = true -> kind w = true ->
                 compareValues u v = (-1)%Z -> compareValues v w = (-1)%Z ->
                 compareValues u w = (-1)%Z).

(** ** The older class of the root [index.ts] and [index.js]

    It extends [Map]; [saveChanges] reports nothing, [generateId] does not
    look at the keys, [initialize] does not validate. *)

Module Legacy.
Section Legacy.
Context `{runtime : Runtime} `{host : Host StorageType}.

Implicit Type db : Database StorageType.

Definition saveChanges db : Database StorageType :=
  let entries := data db in
  withStorage db
    (snd (setDynamicProperty (storageType db) (collectionName db) (JSON_stringify entries))).

Definition generateId db : string * Database StorageType :=
  (hexDigits 16 (drawn db), withDrawn db (drawn db + 16)).

Definition clear db : Database StorageType := saveChanges (withData db []).

Definition set (id : string) (value' : doc) db : completion unit * Database StorageType :=
  if negb (validate db value') then (Throw "Invalid data format", db)
  else (Normal (), saveChanges (withData db (JsMap.set (data db) id value'))).

Definition create (data' : doc) db : completion string * Database StorageType :=
  if negb (validate db data') then (Throw "Invalid data format", db)
  else
    let (id, db1) := generateId db in
    match set id data' db1 with
    | (Normal _, db2) => (Normal id, db2)
    | (Throw e, db2) => (Throw e, db2)
    end.

Definition initialize db : Database StorageType :=
  match getDynamicProperty (storageType db) (collectionName db) with
  | Normal (Some storedData) =>
      if truthy storedData then
        match JSON_parse storedData with
        | Normal entries =>
            fold_left
              (fun acc e => withData acc (JsMap.set (data acc) (fst e) (snd e)))
              entries db
        | Throw _ => saveChanges (clear db)
        end
      else db
  | Normal None => db
  | Throw _ => saveChanges (clear db)
  end.

Definition delete (id : string) db : bool * Database StorageType :=
  let result := JsMap.has (data db) id in
  if result
  then (result, saveChanges (withData db (JsMap.delete (data db) id)))
  else (result, db).

Definition update (id : string) (data' : doc) db : completion bool * Database StorageType :=
  match JsMap.get (data db) id with
  | None => (Normal false, db)
  | Some existingData =>
      let updatedData := spread existingData data' in
      if negb (validate db updatedData) then (Throw "Invalid data format", db)
      else
        match set id updatedData db with
        | (Normal _, db') => (Normal true, db')
        | (Throw e, db') => (Throw e, db')
        end
  end.

(** [entries.forEach(([id, value]) => this.set(id, value))]. *)
Fixpoint setEach (entries : list (string * doc)) db
  : completion unit * Database StorageType :=
  match entries with
  | [] => (Normal (), db)
  | e :: rest =>
      match set (fst e) (snd e) db with
      | (Normal _, db') => setEach rest db'
      | (Throw m, db') => (Throw m, db')
      end
  end.

(** [this.clear()] comes before [JSON.parse(data)]. *)
Definition import (text' : text) db : completion unit * Database StorageType :=
  let db1 := clear db in
  match JSON_parse text' with
  | Throw e => (Throw e, db1)
  | Normal entries => setEach entries db1
  end.

End Legacy.
End Legacy.

(** ** A host and a run time to run the code on *)

(** A world that keeps its dynamic properties in a table and rejects a
    snapshot of more than [capacity] entries, as a host with a bound on the
    size of a property does. *)
Record World : Type := {
  properties : list (string * text);
  capacity : nat
}.

Definition textSize (t : text) : nat :=
  match t with
  | Snapshot entries => List.length entries
  | Malformed raw => String.length raw
  end.

#[global] Instance World_Host : Host World := {
  getDynamicProperty w key := Normal (JsMap.get (properties w) key);
  setDynamicProperty w key t :=
    if (textSize t <=? capacity w)%nat
    then (Normal (), {| properties := JsMap.set (properties w) key t;
                        capacity := capacity w |})
    else (Throw "value too long", w)
}.

Definition nibbleOfNat (n : nat) : nibble :=
  match n mod 16 with
  | 0 => x0 | 1 => x1 | 2 => x2 | 3 => x3 | 4 => x4 | 5 => x5 | 6 => x6 | 7 => x7
  | 8 => x8 | 9 => x9 | 10 => xa | 11 => xb | 12 => xc | 13 => xd | 14 => xe | _ => xf
  end%nat.

(** A decimal integer literal with an optional sign, or [Infinity] with
    one: the instance of [StringToNumber] the examples run with. *)
Fixpoint digits (s : string) (acc : Z) : option Z :=
  match s with
  | EmptyString => Some acc
  | String c rest =>
      let n := nat_of_ascii c in
      if (48 <=? n)%nat && (n <=? 57)%nat
      then digits rest (10 * acc + Z.of_nat (n - 48))%Z
      else None
  end.

Definition unsignedLiteral (s : string) : option number :=
  if String.eqb s "Infinity" then Some (Infinity false)
  else match s with
       | EmptyString => None
       | _ => Integer <$> digits s 0%Z
       end.

Definition negate (n : number) : number :=
  match n with
  | NaN => NaN
  | Infinity negative => Infinity (negb negative)
  | Integer z => Integer (- z)
  end.

Definition decimalLiteral (s : string) : number :=
  match s with
  | EmptyString => Integer 0
  | String "-" rest => default NaN (negate <$> unsignedLiteral rest)
  | String "+" rest => default NaN (unsignedLiteral rest)
  | _ => default NaN (unsignedLiteral s)
  end.

(** A lowering that depends on the context, as the Unicode one does: the
    code units from 128 on are read as the Greek letters of ISO 8859-7,
    and a capital sigma (211) becomes the final sigma (242) at the end of
    a word, after a letter, and the sigma (243) elsewhere. *)
Definition isLetter (c : ascii) : bool :=
  let n := nat_of_ascii c in
  ((65 <=? n)%nat && (n <=? 90)%nat) || ((97 <=? n)%nat && (n <=? 122)%nat) ||
  ((193 <=? n)%nat && (n <=? 217)%nat) || ((225 <=? n)%nat && (n <=? 249)%nat).

Definition lowerGreekLetter (c : ascii) : ascii :=
  let n := nat_of_ascii c in
  if (193 <=? n)%nat && (n <=? 217)%nat then ascii_of_nat (n + 32) else lowerAscii c.

Fixpoint lowerGreekFrom (afterLetter : bool) (s : string) : string :=
  match s with
  | EmptyString => EmptyString
  | String c rest =>
      let final :=
        afterLetter &&
        match rest with
        | EmptyString => true
        | String next _ => negb (isLetter next)
        end in
      String (if (nat_of_ascii c =? 211)%nat && final then ascii_of_nat 242
              else lowerGreekLetter c)
             (lowerGreekFrom (isLetter c) rest)
  end.

Definition lowerGreek (s : string) : string := lowerGreekFrom false s.

(** The moves of V8's [Array.prototype.sort] on an array of fewer than 64
    elements: the run at the start of the array is found, and reversed
    when it descends; each element after it is then inserted among those
    before it at the place a binary search gives. *)
Section BinaryInsertion.
Context {A : Type}.
Variable compare : A -> A -> Z.

(** The number of elements after [previous] that continue the run. *)
Fixpoint runLength (descending : bool) (previous : A) (rest : list A) : nat :=
  match rest with
  | [] => 0
  | current :: rest' =>
      let order := compare current previous in
      if (if descending then (0 <=? order)%Z else (order <? 0)%Z) then 0
      else S (runLength descending current rest')
  end.

(** [CountAndMakeRun]: the length of the run and whether it descends. *)
Definition countRun (w : list A) : nat * bool :=
  match w with
  | low :: next :: rest =>
      let descending := (compare next low <? 0)%Z in
      (2 + runLength descending next rest, descending)
  | _ => (List.length w, false)
  end.

(** The place of [pivot] among the elements before index [right]. *)
Fixpoint search (fuel : nat) (pivot : A) (w : list A) (left right : nat) : nat :=
  match fuel with
  | O => left
  | S fuel' =>
      if (left <? right)%nat then
        let mid := left + (right - left) / 2 in
        match nth_error w mid with
        | Some element =>
            if (compare pivot element <? 0)%Z
            then search fuel' pivot w left mid
            else search fuel' pivot w (S mid) right
        | None => left
        end
      else left
  end.

(** [BinaryInsertionSort] from index [start] on, for [count] elements. *)
Fixpoint insertFrom (count start : nat) (w : list A) : list (nat * nat) :=
  match count with
  | O => []
  | S count' =>
      match nth_error w start with
      | Some pivot =>
          let left := search (S start) pivot w 0 start in
          (start, left) :: insertFrom count' (S start) (move w start left)
      | None => []
      end
  end.

Definition binaryInsertionMoves (a : list A) : list (nat * nat) :=
  let (run, descending) := countRun a in
  let reversal :=
    if descending then List.map (fun k => (k, 0)) (List.seq 1 (run - 1)) else [] in
  let w := fold_left (fun w m => move w (fst m) (snd m)) reversal a in
  reversal ++ insertFrom (List.length a - run) run w.

End BinaryInsertion.

(** The run time of the examples: it reads decimal literals, lowers as
    [lowerGreek] and sorts as V8. Its random source gives every candidate
    twice: the second one collides when the first was stored. *)
Definition twice : Runtime := {|
  StringToNumber := decimalLiteral;
  randomNibble n := nibbleOfNat (n / 32);
  toLowerCaseBeyondAscii := lowerGreek;
  sortMoves A compare a := binaryInsertionMoves compare a
|}.

(** The same with a random source that gives the same candidate for
    ever. *)
Definition stuck : Runtime := {|
  StringToNumber := decimalLiteral;
  randomNibble n := x0;
  toLowerCaseBeyondAscii := lowerGreek;
  sortMoves A compare a := binaryInsertionMoves compare a
|}.


Definition user (name : string) (age : Z) : doc :=
  <["name" := VStr name]> (<["age" := VNum age]> ∅).

(** The collection of three users of the examples, in this order of
    insertion. *)
Definition people {StorageType : Type} (st : StorageType) : Database StorageType :=
  {| collectionName := "people";
     storageType := st;
     collectionValidators := None;
     data := [("00000000000000a1", user "Ann" 20);
              ("00000000000000c1", user "Cid" 20);
              ("00000000000000b1", user "Ben" 30)];
     drawn := 0 |}.

(** Ann and Cid, of the same age, and a guest between them. *)
Definition guests {StorageType : Type} (middle : doc) (st : StorageType)
  : Database StorageType :=
  {| collectionName := "guests";
     storageType := st;
     collectionValidators := None;
     data := [("00000000000000a1", user "Ann" 20);
              ("00000000000000d1", middle);
              ("00000000000000c1", user "Cid" 20)];
     drawn := 0 |}.

(** An empty world, and one that takes no snapshot with an entry. *)
Definition emptyWorld : World := {| properties := []; capacity := 100 |}.

Definition fullWorld : World := {| properties := []; capacity := 0 |}.

(** The state of a collection that was just constructed and found nothing
    to load. *)
Definition fresh {StorageType : Type} (name : string) (st : StorageType)
    (validators : option CollectionValidator) (position : nat) : Database StorageType :=
  {| collectionName := name; storageType := st; collectionValidators := validators;
     data := []; drawn := position |}.

Definition userValidators : option CollectionValidator :=
  Some [("name", Some (fun v => negb (strictEquals v (VStr ""))));
        ("age", Some (fun v => greaterThan (runtime := twice) v (VNum 0)))].

(** A [Date], the third of November 2026 at noon, universal time. *)
Definition noon : object :=
  {| reference := 1;
     asOperand := ONumber (Integer 1793707200000);
     asString := "Tue Nov 03 2026 12:00:00 GMT+0000 (Coordinated Universal Time)";
     asJSON := Some (JStr "2026-11-03T12:00:00.000Z") |}.

(** A user whose age is NaN and who has a date of birth. *)
Definition dated : Database World :=
  {| collectionName := "people";
     storageType := emptyWorld;
     collectionValidators := None;
     data := [("00000000000000a1",
               <["born" := VObject noon]> (<["age" := VNaN]> {["name" := VStr "Ann"]}))];
     drawn := 16 |}.

(** The word for a star and its first two letters, in capital Greek
    letters as ISO 8859-7 numbers them: alpha 193, sigma 211, tau 212,
    epsilon 197, rho 209, iota 201. *)
Definition greek (codes : list nat) : string :=
  string_of_list_ascii (List.map ascii_of_nat codes).

Definition star : string := greek [193; 211; 212; 197; 209; 201].

Definition stars : Database World :=
  {| collectionName := "stars";
     storageType := emptyWorld;
     collectionValidators := None;
     data := [("00000000000000a1", {["name" := VStr star]})];
     drawn := 16 |}.


(** Two users in a world that takes no snapshot with an entry any more. *)
Definition pair : Database World :=
  {| collectionName := "people";
     storageType := fullWorld;
     collectionValidators := userValidators;
     data := [("0000000000000000", user "Ann" 20);
              ("1111111111111111", user "Ben" 30)];
     drawn := 48 |}.

(** A world whose property does not parse, and one whose snapshot has an
    entry that fails the validators. *)
Definition brokenWorld : World :=
  {| properties := [("people", Malformed "[[")]; capacity := 100 |}.

Definition mixedWorld : World :=
  {| properties :=
       [("people",
         Snapshot [("0000000000000000", omap toJSON (user "Ann" 20));
                   ("1111111111111111", omap toJSON (user "" 30))])];
     capacity := 100 |}.

(** * Properties *)

(** ** The [Map] *)

Section JsMapFacts.
Context {V : Type}.
Implicit Types (m : list (string * V)) (k : string) (v : V).

Lemma has_get_None m k : JsMap.has m k = false <-> JsMap.get m k = None.
Proof. unfold JsMap.has. destruct (JsMap.get m k); split; congruence. Qed.

Lemma has_get_Some m k : JsMap.has m k = true <-> exists v, JsMap.get m k = Some v.
Proof.
  unfold JsMap.has. destruct (JsMap.get m k) as [v|]; split; eauto.
  - discriminate.
  - intros [v Hv]. discriminate.
Qed.

Lemma has_cons m k0 v0 k :
  JsMap.has ((k0, v0) :: m) k = String.eqb k0 k || JsMap.has m k.
Proof. unfold JsMap.has. simpl. destruct (String.eqb k0 k); reflexivity. Qed.

Lemma has_In m k : JsMap.has m k = true <-> In k (List.map fst m).
Proof.
  induction m as [|[k0 v0] m IH]; simpl.
  - split; [discriminate | tauto].
  - rewrite has_cons, orb_true_iff, IH, String.eqb_eq. tauto.
Qed.

Lemma get_In m k v : JsMap.get m k = Some v -> In (k, v) m.
Proof.
  induction m as [|[k0 v0] m IH]; simpl; [discriminate|].
  destruct (String.eqb k0 k) eqn:E.
  - apply String.eqb_eq in E. intros [= ->]. subst. now left.
  - intros H. right. now apply IH.
Qed.

Lemma set_absent m k v : JsMap.has m k = false -> JsMap.set m k v = m ++ [(k, v)].
Proof.
  induction m as [|[k0 v0] m IH]; simpl; [reflexivity|].
  rewrite has_cons. destruct (String.eqb k0 k); simpl; [discriminate|].
  intros H. now rewrite IH.
Qed.

Lemma get_set_same m k v : JsMap.get (JsMap.set m k v) k = Some v.
Proof.
  induction m as [|[k0 v0] m IH]; simpl.
  - now rewrite String.eqb_refl.
  - destruct (String.eqb k0 k) eqn:E; simpl; now rewrite E.
Qed.

Lemma delete_absent m k : JsMap.has m k = false -> JsMap.delete m k = m.
Proof.
  induction m as [|[k0 v0] m IH]; simpl; [reflexivity|].
  rewrite has_cons. destruct (String.eqb k0 k); simpl; [discriminate|].
  intros H. now rewrite IH.
Qed.

(** What [create] relies on to roll back: deleting the key just added
    gives the map back. *)
Lemma delete_set_absent m k v :
  JsMap.has m k = false -> JsMap.delete (JsMap.set m k v) k = m.
Proof.
  induction m as [|[k0 v0] m IH]; simpl.
  - now rewrite String.eqb_refl.
  - rewrite has_cons. destruct (String.eqb k0 k) eqn:E; simpl; [discriminate|].
    intros H. now rewrite E, IH.
Qed.

(** What [update] relies on to roll back: setting the former value again
    gives the map back. *)
Lemma set_set_former m k v former :
  JsMap.get m k = Some former -> JsMap.set (JsMap.set m k v) k former = m.
Proof.
  induction m as [|[k0 v0] m IH]; simpl; [discriminate|].
  destruct (String.eqb k0 k) eqn:E; simpl; rewrite E.
  - now intros [= ->].
  - intros H. now rewrite IH.
Qed.

Lemma has_delete m k : JsMap.has (JsMap.delete m k) k = false.
Proof.
  induction m as [|[k0 v0] m IH]; simpl; [reflexivity|].
  destruct (String.eqb k0 k) eqn:E; [exact IH|].
  now rewrite has_cons, E, IH.
Qed.

Lemma In_set m k v e : In e (JsMap.set m k v) -> e = (k, v) \/ In e m.
Proof.
  induction m as [|[k0 v0] m IH]; simpl.
  - intros [<-|[]]. now left.
  - destruct (String.eqb k0 k) eqn:E; simpl.
    + apply String.eqb_eq in E. subst. intros [<-|H]; auto.
    + intros [<-|H]; auto. destruct (IH H); auto.
Qed.

Lemma In_delete m k e : In e (JsMap.delete m k) -> In e m.
Proof.
  induction m as [|[k0 v0] m IH]; simpl; [tauto|].
  destruct (String.eqb k0 k); simpl; intuition.
Qed.

Lemma keys_set m k v :
  List.map fst (JsMap.set m k v) =
  if JsMap.has m k then List.map fst m else List.map fst m ++ [k].
Proof.
  induction m as [|[k0 v0] m IH]; simpl; [reflexivity|].
  rewrite has_cons. destruct (String.eqb k0 k) eqn:E; simpl; [reflexivity|].
  rewrite IH. now destruct (JsMap.has m k).
Qed.

Lemma uniqueKeys_set m k v : JsMap.uniqueKeys m -> JsMap.uniqueKeys (JsMap.set m k v).
Proof.
  unfold JsMap.uniqueKeys. intros H. rewrite keys_set.
  destruct (JsMap.has m k) eqn:E; [assumption|].
  apply NoDup_app; split; [assumption|]. split.
  - intros x Hx Hk. apply list_elem_of_In in Hx, Hk. simpl in Hk.
    destruct Hk as [<-|[]]. apply has_In in Hx. congruence.
  - apply NoDup_singleton.
Qed.

Lemma uniqueKeys_delete m k : JsMap.uniqueKeys m -> JsMap.uniqueKeys (JsMap.delete m k).
Proof.
  unfold JsMap.uniqueKeys. induction m as [|[k0 v0] m IH]; simpl; [auto|].
  intros H. apply NoDup_cons in H as [Hk H].
  destruct (String.eqb k0 k); [auto|]. simpl. apply NoDup_cons. split; [|auto].
  intros Hin. apply Hk. apply list_elem_of_In in Hin. apply list_elem_of_In.
  apply in_map_iff in Hin as [e [He Hin]]. apply in_map_iff. exists e.
  split; [assumption|]. eapply In_delete; eassumption.
Qed.

End JsMapFacts.

(** ** The class [Database<T>] *)

Section Properties.
Context `{runtime : Runtime} `{host : Host StorageType}.

Implicit Types (db acc : Database StorageType) (d : doc) (id : string).

(** *** Saving touches the host only *)

Lemma saveChanges_data db : data (snd (saveChanges db)) = data db.
Proof.
  unfold saveChanges. destruct (setDynamicProperty _ _ _) as [[u|e] st]; reflexivity.
Qed.

Lemma saveChanges_validators db :
  collectionValidators (snd (saveChanges db)) = collectionValidators db.
Proof.
  unfold saveChanges. destruct (setDynamicProperty _ _ _) as [[u|e] st]; reflexivity.
Qed.

Lemma saveChanges_storage db :
  storageType (snd (saveChanges db)) =
  snd (setDynamicProperty (storageType db) (collectionName db) (JSON_stringify (data db))).
Proof.
  unfold saveChanges. destruct (setDynamicProperty _ _ _) as [[u|e] st]; reflexivity.
Qed.

Lemma saveChanges_result db :
  fst (saveChanges db) =
  match fst (setDynamicProperty (storageType db) (collectionName db)
               (JSON_stringify (data db)))
  with Normal _ => true | Throw _ => false end.
Proof.
  unfold saveChanges. destruct (setDynamicProperty _ _ _) as [[u|e] st]; reflexivity.
Qed.

(** *** Identifiers *)

Lemma hexDigits_length n p : String.length (hexDigits n p) = n.
Proof.
  revert p. induction n as [|n IH]; intros p; simpl; [reflexivity|]. now rewrite IH.
Qed.

Lemma toString16_lower_hex x : isLowerHex (toString16 x) = true.
Proof. destruct x; reflexivity. Qed.

Lemma hexDigits_lower_hex n p : allChars isLowerHex (hexDigits n p) = true.
Proof.
  revert p. induction n as [|n IH]; intros p; [reflexivity|].
  cbn [hexDigits allChars]. now rewrite toString16_lower_hex, IH.
Qed.

Lemma candidate_0 db : candidate db 0 = hexDigits 16 (drawn db).
Proof. unfold candidate. now rewrite Nat.mul_0_r, Nat.add_0_r. Qed.

Lemma candidate_withDrawn db k :
  candidate (withDrawn db (drawn db + 16)) k = candidate db (S k).
Proof. unfold candidate. cbn [drawn withDrawn]. f_equal. lia. Qed.

Lemma withDrawn_withDrawn db n m : withDrawn (withDrawn db n) m = withDrawn db m.
Proof. reflexivity. Qed.

(** The loop returns the first candidate that is not a key, when there is
    one within the rounds it is given. *)
Lemma generateId_returns fuel db k :
  (forall j, j < k -> JsMap.has (data db) (candidate db j) = true) ->
  JsMap.has (data db) (candidate db k) = false ->
  k < fuel ->
  generateId fuel db = Some (candidate db k, withDrawn db (drawn db + 16 * S k)).
Proof.
  revert db k. induction fuel as [|fuel IH]; intros db k Hbefore Hk Hlt; [lia|].
  cbn [generateId]. cbn [data withDrawn]. rewrite <- candidate_0.
  destruct k as [|k].
  - rewrite Hk. reflexivity.
  - rewrite (Hbefore 0) by lia.
    rewrite (IH (withDrawn db (drawn db + 16)) k).
    + rewrite candidate_withDrawn, withDrawn_withDrawn. cbn [drawn withDrawn].
      now replace (drawn db + 16 + 16 * S k) with (drawn db + 16 * S (S k)) by lia.
    + intros j Hj. rewrite candidate_withDrawn. apply Hbefore. lia.
    + rewrite candidate_withDrawn. exact Hk.
    + lia.
Qed.

(** Whatever the loop returns is a candidate that is not a key, after
    candidates that all were. *)
Lemma generateId_sound fuel db id db' :
  generateId fuel db = Some (id, db') ->
  exists k, k < fuel /\ id = candidate db k /\
    (forall j, j < k -> JsMap.has (data db) (candidate db j) = true) /\
    JsMap.has (data db) id = false /\
    db' = withDrawn db (drawn db + 16 * S k).
Proof.
  revert db. induction fuel as [|fuel IH]; intros db; [discriminate|].
  cbn [generateId]. cbn [data withDrawn]. rewrite <- candidate_0.
  destruct (JsMap.has (data db) (candidate db 0)) eqn:E.
  - intros Hgen. apply IH in Hgen as (k & Hk & -> & Hbefore & Hfresh & ->).
    exists (S k). rewrite candidate_withDrawn in Hfresh.
    rewrite candidate_withDrawn. repeat split; [lia| |exact Hfresh|].
    + intros [|j] Hj; [exact E|].
      specialize (Hbefore j ltac:(lia)). now rewrite candidate_withDrawn in Hbefore.
    + rewrite withDrawn_withDrawn. cbn [drawn withDrawn].
      now replace (drawn db + 16 + 16 * S k) with (drawn db + 16 * S (S k)) by lia.
  - intros [= <- <-]. exists 0. repeat split; [lia| |exact E].
    intros j Hj. lia.
Qed.

(** A loop that is still running has only met keys. *)
Lemma generateId_None fuel db :
  generateId fuel db = None ->
  forall j, j < fuel -> JsMap.has (data db) (candidate db j) = true.
Proof.
  revert db. induction fuel as [|fuel IH]; intros db Hnone j Hj; [lia|].
  cbn [generateId] in Hnone. cbn [data withDrawn] in Hnone.
  rewrite <- candidate_0 in Hnone.
  destruct (JsMap.has (data db) (candidate db 0)) eqn:E; [|discriminate].
  destruct j as [|j]; [exact E|].
  specialize (IH _ Hnone j ltac:(lia)). now rewrite candidate_withDrawn in IH.
Qed.

(** A random source that does not repeat a candidate lets the loop return
    within one round more than there are keys. *)
Lemma generateId_terminates db :
  NoDup (List.map (candidate db) (seq 0 (S (List.length (data db))))) ->
  exists id db', generateId (S (List.length (data db))) db = Some (id, db').
Proof.
  intros Hdistinct.
  destruct (generateId (S (List.length (data db))) db) as [[id db']|] eqn:Hgen; [eauto|].
  exfalso. pose proof (generateId_None _ _ Hgen) as Hall.
  assert (Hincl : incl (List.map (candidate db) (seq 0 (S (List.length (data db)))))
                       (List.map fst (data db))).
  { intros x Hx. apply in_map_iff in Hx as [j [<- Hj]]. apply in_seq in Hj.
    apply has_In. apply Hall. lia. }
  apply NoDup_ListNoDup in Hdistinct. apply (NoDup_incl_length Hdistinct) in Hincl.
  rewrite !length_map, length_seq in Hincl. lia.
Qed.

Lemma generateId_fresh fuel db id db' :
  generateId fuel db = Some (id, db') ->
  JsMap.has (data db) id = false /\ data db' = data db /\
  collectionValidators db' = collectionValidators db.
Proof.
  intros Hgen. apply generateId_sound in Hgen as (k & _ & _ & _ & Hfresh & ->). auto.
Qed.

Lemma saveChanges_snd db :
  snd (saveChanges db) =
  withStorage db
    (snd (setDynamicProperty (storageType db) (collectionName db)
            (JSON_stringify (data db)))).
Proof.
  unfold saveChanges. destruct (setDynamicProperty _ _ _) as [[u|e] st]; reflexivity.
Qed.

Lemma saveChanges_accepts db : fst (saveChanges db) = accepts db (data db).
Proof.
  unfold saveChanges, accepts.
  destruct (setDynamicProperty _ _ _) as [[u|e] st]; reflexivity.
Qed.

Lemma accepts_withDrawn db n entries : accepts (withDrawn db n) entries = accepts db entries.
Proof. reflexivity. Qed.

Lemma accepts_withData db m entries : accepts (withData db m) entries = accepts db entries.
Proof. reflexivity. Qed.

(** *** Validation *)

Lemma validate_forall db d :
  validate db d = true <->
  forall validators key validator,
    collectionValidators db = Some validators ->
    In (key, Some validator) validators -> validator (prop d key) = true.
Proof.
  unfold validate. destruct (collectionValidators db) as [vs|].
  - rewrite forallb_forall. split.
    + intros Hall validators key validator [= <-] Hin. exact (Hall _ Hin).
    + intros Hall [key [validator|]] Hin; [|reflexivity].
      exact (Hall vs key validator eq_refl Hin).
  - split; [discriminate|reflexivity].
Qed.

Lemma prop_spread (existing patch : doc) key :
  prop (spread existing patch) key =
  match patch !! key with Some v => v | None => prop existing key end.
Proof.
  unfold prop, spread. rewrite lookup_union.
  destruct (patch !! key), (existing !! key); reflexivity.
Qed.

(** *** Creating, updating, deleting *)

(** C1. For a document that passes validation, when the save [create]
    makes is refused, the document it inserted is taken out again: the
    map is what it was before the call, and [create] returns [null]. The
    identifier is the first candidate of the random source that is not a
    key, found within the rounds given. *)
Theorem create_rolls_back fuel d db k :
  validate db d = true ->
  (forall j, j < k -> JsMap.has (data db) (candidate db j) = true) ->
  JsMap.has (data db) (candidate db k) = false ->
  k < fuel ->
  accepts db (JsMap.set (data db) (candidate db k) d) = false ->
  exists db',
    create fuel d db = Some (Normal None, db') /\
    data db' = data db /\
    findById (candidate db k) db' = None.
Proof.
  intros Hvalid Hbefore Hfresh Hfuel Hrefused. unfold create.
  rewrite Hvalid, (generateId_returns fuel db k Hbefore Hfresh Hfuel).
  cbn [negb data withDrawn].
  destruct (saveChanges _) as [saved db3] eqn:Hsave.
  pose proof (saveChanges_accepts
                (withData (withDrawn db (drawn db + 16 * S k))
                          (JsMap.set (data db) (candidate db k) d))) as Hres.
  pose proof (saveChanges_data
                (withData (withDrawn db (drawn db + 16 * S k))
                          (JsMap.set (data db) (candidate db k) d))) as Hdata.
  rewrite Hsave in Hres, Hdata. cbn [fst snd data withData] in Hres, Hdata.
  rewrite accepts_withData, accepts_withDrawn, Hrefused in Hres. subst saved.
  eexists. split; [reflexivity|]. cbn [negb data withData]. rewrite Hdata.
  rewrite delete_set_absent by exact Hfresh. split; [reflexivity|].
  unfold findById. cbn [data withData].
  apply has_get_None in Hfresh. now rewrite Hfresh.
Qed.

(** C3. For a present identifier, [update] validates the merged document,
    the existing fields overridden by those of the patch, against every
    validator, also those of fields the patch does not name; when one
    rejects, [update] throws and nothing has changed; when all accept and
    the save is refused, the former document is put back and [update]
    returns [false]. *)
Theorem update_validates_merged_and_rolls_back id (patch existing : doc) db :
  JsMap.get (data db) id = Some existing ->
  (validate db (spread existing patch) = true <->
   forall validators key validator,
     collectionValidators db = Some validators ->
     In (key, Some validator) validators ->
     validator (match patch !! key with
                | Some v => v
                | None => prop existing key
                end) = true) /\
  (validate db (spread existing patch) = false ->
   update id patch db = (Throw "Invalid data format", db)) /\
  (validate db (spread existing patch) = true ->
   accepts db (JsMap.set (data db) id (spread existing patch)) = false ->
   exists db',
     update id patch db = (Normal false, db') /\
     data db' = data db /\
     findById id db' = Some (Found id existing)).
Proof.
  intros Hget. split; [|split].
  - rewrite validate_forall. split; intros Hall validators key validator Hv Hin.
    + rewrite <- prop_spread. eapply Hall; eassumption.
    + rewrite prop_spread. eapply Hall; eassumption.
  - intros Hinvalid. unfold update. now rewrite Hget, Hinvalid.
  - intros Hvalid Hrefused. unfold update. rewrite Hget, Hvalid. cbn [negb].
    destruct (saveChanges _) as [saved db2] eqn:Hsave.
    pose proof (saveChanges_accepts
                  (withData db (JsMap.set (data db) id (spread existing patch)))) as Hres.
    pose proof (saveChanges_data
                  (withData db (JsMap.set (data db) id (spread existing patch)))) as Hdata.
    rewrite Hsave in Hres, Hdata. cbn [fst snd data withData] in Hres, Hdata.
    rewrite accepts_withData, Hrefused in Hres. subst saved.
    eexists. split; [reflexivity|]. cbn [data withData]. rewrite Hdata.
    rewrite set_set_former by exact Hget. split; [reflexivity|].
    unfold findById. cbn [data withData]. now rewrite Hget.
Qed.

(** C10. For a present identifier, [delete] takes the document out of the
    map before it saves; when the save is refused it returns [false] and
    does not put the document back: the map no longer holds the
    identifier although the deletion was reported as failed. *)
Theorem delete_not_restored id db :
  JsMap.has (data db) id = true ->
  accepts db (JsMap.delete (data db) id) = false ->
  exists db',
    delete id db = (false, db') /\
    data db' = JsMap.delete (data db) id /\
    JsMap.has (data db') id = false /\
    findById id db' = None.
Proof.
  intros Hhas Hrefused. unfold delete. rewrite Hhas. cbn [negb].
  destruct (saveChanges _) as [saved db'] eqn:Hsave.
  pose proof (saveChanges_accepts (withData db (JsMap.delete (data db) id))) as Hres.
  pose proof (saveChanges_data (withData db (JsMap.delete (data db) id))) as Hdata.
  rewrite Hsave in Hres, Hdata. cbn [fst snd data withData] in Hres, Hdata.
  rewrite accepts_withData, Hrefused in Hres. subst saved.
  exists db'. cbn [negb]. split; [reflexivity|]. split; [exact Hdata|].
  assert (Hgone : JsMap.has (data db') id = false) by (rewrite Hdata; apply has_delete).
  split; [exact Hgone|]. unfold findById.
  apply has_get_None in Hgone. now rewrite Hgone.
Qed.

(** What a call of [create] that returns has done. *)
Lemma create_outcome fuel d db outcome db' :
  create fuel d db = Some (outcome, db') ->
  collectionValidators db' = collectionValidators db /\
  ((exists e, outcome = Throw e /\ validate db d = false /\ db' = db) \/
   (outcome = Normal None /\ validate db d = true /\ data db' = data db) \/
   (exists id, outcome = Normal (Some id) /\ validate db d = true /\
               String.length id = 16 /\ allChars isLowerHex id = true /\
               JsMap.has (data db) id = false /\
               data db' = data db ++ [(id, d)])).
Proof.
  unfold create. destruct (validate db d) eqn:Hvalid; cbn [negb].
  2:{ intros [= <- <-]. split; [reflexivity|]. left. eauto. }
  destruct (generateId fuel db) as [[id db1]|] eqn:Hgen; [|discriminate].
  pose proof (generateId_sound _ _ _ _ Hgen) as (k & _ & Hid & _ & Hfresh & Hdb1).
  destruct (saveChanges _) as [saved db3] eqn:Hsave.
  pose proof (saveChanges_data (withData db1 (JsMap.set (data db1) id d))) as Hdata.
  pose proof (saveChanges_validators (withData db1 (JsMap.set (data db1) id d))) as Hval.
  rewrite Hsave in Hdata, Hval. cbn [snd data collectionValidators withData] in Hdata, Hval.
  assert (Hdata1 : data db1 = data db) by (subst db1; reflexivity).
  assert (Hval1 : collectionValidators db1 = collectionValidators db)
    by (subst db1; reflexivity).
  rewrite Hdata1 in Hdata. rewrite Hval1 in Hval.
  destruct saved; cbn [negb]; intros [= <- <-]; cbn [collectionValidators withData].
  - split; [exact Hval|]. right. right. exists id.
    repeat split; try assumption.
    + subst id. apply hexDigits_length.
    + subst id. apply hexDigits_lower_hex.
    + rewrite Hdata. now apply set_absent.
  - split; [exact Hval|]. right. left. repeat split. cbn [data withData].
    rewrite Hdata. now apply delete_set_absent.
Qed.

Lemma has_app_one (m : list (string * doc)) id d x :
  JsMap.has (m ++ [(id, d)]) x = JsMap.has m x || String.eqb id x.
Proof.
  induction m as [|[k0 v0] m IH]; cbn [app].
  - rewrite has_cons. apply orb_comm.
  - rewrite !has_cons, IH. now rewrite orb_assoc.
Qed.

Lemma create_keeps_keys fuel d db outcome db' x :
  create fuel d db = Some (outcome, db') ->
  JsMap.has (data db) x = true -> JsMap.has (data db') x = true.
Proof.
  intros Hcreate Hx. apply create_outcome in Hcreate as [_ Hcases].
  destruct Hcases as [(e & _ & _ & ->)|[(_ & _ & Hdata)|(id & _ & _ & _ & _ & _ & Hdata)]];
    [assumption|now rewrite Hdata|].
  rewrite Hdata, has_app_one, Hx. reflexivity.
Qed.

Lemma createEach_identifiers fuel items db outcomes db' :
  createEach fuel items db = Some (outcomes, db') ->
  NoDup (identifiers outcomes) /\
  (forall x, JsMap.has (data db) x = true -> JsMap.has (data db') x = true) /\
  (forall id, In id (identifiers outcomes) ->
              JsMap.has (data db) id = false /\ JsMap.has (data db') id = true /\
              String.length id = 16 /\ allChars isLowerHex id = true).
Proof.
  revert db outcomes db'. induction items as [|item rest IH]; intros db outcomes db'.
  - intros [= <- <-]. cbn [identifiers]. split; [apply NoDup_nil_2|]. split; [auto|].
    intros id [].
  - cbn [createEach].
    destruct (create fuel item db) as [[outcome db1]|] eqn:Hcreate; [|discriminate].
    destruct (createEach fuel rest db1) as [[outs db2]|] eqn:Heach; [|discriminate].
    intros [= <- <-]. destruct (IH _ _ _ Heach) as (Hnodup & Hmono & Hids).
    pose proof (fun x => create_keeps_keys _ _ _ _ _ x Hcreate) as Hmono1.
    assert (Hrest : forall id, In id (identifiers outs) ->
              JsMap.has (data db) id = false /\ JsMap.has (data db2) id = true /\
              String.length id = 16 /\ allChars isLowerHex id = true).
    { intros id Hin. destruct (Hids id Hin) as (Hnew & Hin2 & Hlen & Hhex).
      repeat split; try assumption.
      destruct (JsMap.has (data db) id) eqn:E; [|reflexivity].
      apply Hmono1 in E. congruence. }
    apply create_outcome in Hcreate as [_ Hcases].
    destruct Hcases as [(e & -> & _ & _)|[(-> & _ & _)|(id & -> & _ & Hlen & Hhex & Hfresh & Hdata)]];
      cbn [identifiers]; try (split; [assumption|split; [auto|assumption]]).
    assert (Hid1 : JsMap.has (data db1) id = true).
    { rewrite Hdata, has_app_one, String.eqb_refl. apply orb_true_r. }
    split; [|split; [auto|]].
    + apply NoDup_cons_2; [|assumption].
      intros Hin. apply list_elem_of_In in Hin.
      destruct (Hids id Hin) as [Hnew _]. congruence.
    + intros id' [<-|Hin]; [|auto]. repeat split; auto.
Qed.

(** C2. [generateId] returns a string of 16 lowercase hexadecimal digits
    that is not a key of the collection when it is generated: it goes on
    until a candidate is not a key, and returns the first such candidate
    when the random source gives one within the rounds given. So the
    identifiers a sequence of calls of [create] returns are pairwise
    distinct. *)
Theorem identifiers_fresh_and_distinct :
  (forall fuel db k,
      (forall j, j < k -> JsMap.has (data db) (candidate db j) = true) ->
      JsMap.has (data db) (candidate db k) = false ->
      k < fuel ->
      exists db', generateId fuel db = Some (candidate db k, db') /\ data db' = data db) /\
  (forall fuel db id db',
      generateId fuel db = Some (id, db') ->
      String.length id = 16 /\ allChars isLowerHex id = true /\
      JsMap.has (data db) id = false) /\
  (forall fuel items db outcomes db',
      createEach fuel items db = Some (outcomes, db') ->
      NoDup (identifiers outcomes) /\
      forall id, In id (identifiers outcomes) ->
                 String.length id = 16 /\ allChars isLowerHex id = true /\
                 JsMap.has (data db) id = false).
Proof.
  split; [|split].
  - intros fuel db k Hbefore Hfresh Hfuel. eexists. split.
    + apply generateId_returns; eassumption.
    + reflexivity.
  - intros fuel db id db' Hgen.
    apply generateId_sound in Hgen as (k & _ & Hid & _ & Hfresh & _).
    subst id. split; [apply hexDigits_length|]. split; [apply hexDigits_lower_hex|].
    exact Hfresh.
  - intros fuel items db outcomes db' Heach.
    apply createEach_identifiers in Heach as (Hnodup & _ & Hids).
    split; [exact Hnodup|]. intros id Hin. destruct (Hids id Hin) as (? & ? & ? & ?).
    auto.
Qed.

(** *** Counting *)

Lemma filter_always {A : Type} (l : list A) : List.filter (fun _ => true) l = l.
Proof. induction l as [|x l IH]; cbn [List.filter]; [reflexivity|]. now rewrite IH. Qed.

Lemma length_filter_values (p : doc -> bool) (m : list (string * doc)) :
  List.length (List.filter p (JsMap.values m)) =
  List.length (List.filter (fun e => p (snd e)) m).
Proof.
  unfold JsMap.values. induction m as [|e m IH]; [reflexivity|].
  cbn [List.map List.filter]. destruct (p (snd e)); cbn [List.length]; now rewrite IH.
Qed.

(** C8. [count()] is the length of what [findMany] returns for the
    predicate that is always true, and is [size]; [count(c)] is the
    number of documents of the collection that satisfy [c], the length
    of what [findMany] returns for that test. *)
Theorem count_agrees_with_findMany db :
  count None db = Z.of_nat (List.length (findMany (Some (fun _ => true)) db)) /\
  count None db = size db /\
  forall c,
    count (Some c) db =
      Z.of_nat (List.length (findMany (Some (fun d => evaluateCondition d c)) db)) /\
    count (Some c) db =
      Z.of_nat (List.length
                  (List.filter (fun e => evaluateCondition (snd e) c) (data db))).
Proof.
  split; [|split].
  - unfold count, size, JsMap.size, findMany.
    now rewrite length_map, filter_always.
  - reflexivity.
  - intros c. unfold count, findMany. rewrite length_map, length_filter_values.
    split; reflexivity.
Qed.

(** *** The documents of the map are valid and its keys unique *)

Lemma validate_same_validators db db' d :
  collectionValidators db' = collectionValidators db -> validate db' d = validate db d.
Proof. unfold validate. now intros ->. Qed.

Lemma clear_data db : data (snd (clear db)) = [].
Proof. unfold clear. now rewrite saveChanges_data. Qed.

Lemma clear_validators db :
  collectionValidators (snd (clear db)) = collectionValidators db.
Proof. unfold clear. now rewrite saveChanges_validators. Qed.

Lemma evolves_valid db m :
  allValid db -> evolves db m -> forall id d, In (id, d) m -> validate db d = true.
Proof.
  intros Hall Hev. induction Hev as [| |m id0 d0 Hev IH Hd0|m id0 Hev IH]; intros id d Hin.
  - exact (Hall id d Hin).
  - destruct Hin.
  - apply In_set in Hin as [[= -> ->]|Hin]; [exact Hd0|exact (IH _ _ Hin)].
  - apply In_delete in Hin. exact (IH _ _ Hin).
Qed.

Lemma evolves_uniqueKeys db m :
  JsMap.uniqueKeys (data db) -> evolves db m -> JsMap.uniqueKeys m.
Proof.
  intros Huniq Hev. induction Hev as [| |m id0 d0 Hev IH Hd0|m id0 Hev IH].
  - exact Huniq.
  - apply NoDup_nil_2.
  - now apply uniqueKeys_set.
  - now apply uniqueKeys_delete.
Qed.

Lemma create_evolves fuel d db outcome db' :
  create fuel d db = Some (outcome, db') ->
  evolves db (data db') /\ collectionValidators db' = collectionValidators db.
Proof.
  intros Hcreate. apply create_outcome in Hcreate as [Hval Hcases].
  split; [|exact Hval].
  destruct Hcases as [(e & _ & _ & ->)|[(_ & _ & ->)|(id & _ & Hd & _ & _ & Hfresh & ->)]];
    try apply evolves_same.
  rewrite <- (set_absent _ _ d Hfresh). apply evolves_set; [apply evolves_same|exact Hd].
Qed.

Lemma update_evolves id (patch : doc) db :
  evolves db (data (snd (update id patch db))) /\
  collectionValidators (snd (update id patch db)) = collectionValidators db.
Proof.
  unfold update. destruct (JsMap.get (data db) id) as [existing|] eqn:Hget;
    [|split; [apply evolves_same|reflexivity]].
  destruct (validate db (spread existing patch)) eqn:Hvalid; cbn [negb];
    [|split; [apply evolves_same|reflexivity]].
  destruct (saveChanges _) as [saved db2] eqn:Hsave.
  pose proof (saveChanges_data
                (withData db (JsMap.set (data db) id (spread existing patch)))) as Hdata.
  pose proof (saveChanges_validators
                (withData db (JsMap.set (data db) id (spread existing patch)))) as Hval.
  rewrite Hsave in Hdata, Hval. cbn [snd data collectionValidators withData] in Hdata, Hval.
  destruct saved; cbn [snd data collectionValidators withData].
  - rewrite Hdata. split; [|exact Hval].
    apply evolves_set; [apply evolves_same|exact Hvalid].
  - rewrite Hdata, set_set_former by exact Hget. split; [apply evolves_same|exact Hval].
Qed.

Lemma delete_evolves id db :
  evolves db (data (snd (delete id db))) /\
  collectionValidators (snd (delete id db)) = collectionValidators db.
Proof.
  unfold delete. destruct (JsMap.has (data db) id); cbn [negb];
    [|split; [apply evolves_same|reflexivity]].
  destruct (saveChanges _) as [saved db'] eqn:Hsave.
  pose proof (saveChanges_data (withData db (JsMap.delete (data db) id))) as Hdata.
  pose proof (saveChanges_validators (withData db (JsMap.delete (data db) id))) as Hval.
  rewrite Hsave in Hdata, Hval. cbn [snd data collectionValidators withData] in Hdata, Hval.
  destruct saved; cbn [negb snd]; rewrite Hdata;
    (split; [apply evolves_delete, evolves_same|exact Hval]).
Qed.

Lemma clear_evolves db :
  evolves db (data (snd (clear db))) /\
  collectionValidators (snd (clear db)) = collectionValidators db.
Proof. rewrite clear_data, clear_validators. split; [apply evolves_clear|reflexivity]. Qed.

(** The loop of [import] over the entries it kept. *)
Lemma import_loop_evolves db entries acc :
  (forall e, In e entries -> validate db (snd e) = true) ->
  evolves db (data acc) ->
  collectionValidators acc = collectionValidators db ->
  let acc' :=
    fold_left (fun acc e => withData acc (JsMap.set (data acc) (fst e) (snd e)))
              entries acc in
  evolves db (data acc') /\ collectionValidators acc' = collectionValidators db.
Proof.
  revert acc. induction entries as [|e entries IH]; intros acc Hvalid Hev Hval; cbn zeta.
  - split; assumption.
  - cbn [fold_left]. apply IH.
    + intros e' Hin. apply Hvalid. now right.
    + cbn [data withData]. apply evolves_set; [exact Hev|]. apply Hvalid. now left.
    + exact Hval.
Qed.

Lemma import_evolves (t : text) db :
  evolves db (data (snd (import t db))) /\
  collectionValidators (snd (import t db)) = collectionValidators db.
Proof.
  unfold import. destruct (JSON_parse t) as [entries|e];
    [|split; [apply evolves_same|reflexivity]].
  rewrite saveChanges_data, saveChanges_validators. apply import_loop_evolves.
  - intros e Hin. apply filter_In in Hin as [_ Hvalid]. exact Hvalid.
  - rewrite clear_data. apply evolves_clear.
  - apply clear_validators.
Qed.

(** The loop of [initialize] over the entries of the stored snapshot. *)
Lemma initialize_loop_evolves db entries acc :
  evolves db (data acc) ->
  collectionValidators acc = collectionValidators db ->
  let acc' :=
    fold_left (fun acc e =>
                 if validate acc (snd e)
                 then withData acc (JsMap.set (data acc) (fst e) (snd e))
                 else acc)
              entries acc in
  evolves db (data acc') /\ collectionValidators acc' = collectionValidators db.
Proof.
  revert acc. induction entries as [|e entries IH]; intros acc Hev Hval; cbn zeta.
  - split; assumption.
  - cbn [fold_left]. destruct (validate acc (snd e)) eqn:Hvalid; apply IH; try assumption.
    cbn [data withData]. apply evolves_set; [exact Hev|].
    now rewrite <- (validate_same_validators db acc).
Qed.

Lemma recover_data db : data (recover db) = [].
Proof. unfold recover. now rewrite saveChanges_data, clear_data. Qed.

Lemma recover_validators db : collectionValidators (recover db) = collectionValidators db.
Proof. unfold recover. now rewrite saveChanges_validators, clear_validators. Qed.

Lemma initialize_evolves db :
  evolves db (data (initialize db)) /\
  collectionValidators (initialize db) = collectionValidators db.
Proof.
  unfold initialize.
  destruct (getDynamicProperty _ _) as [[storedData|]|e];
    try (split; [apply evolves_same|reflexivity]);
    try (rewrite recover_data, recover_validators; split; [apply evolves_clear|reflexivity]).
  destruct (truthy storedData); [|split; [apply evolves_same|reflexivity]].
  destruct (JSON_parse storedData) as [entries|e].
  - apply initialize_loop_evolves; [apply evolves_same|reflexivity].
  - rewrite recover_data, recover_validators. split; [apply evolves_clear|reflexivity].
Qed.

Lemma allValid_evolves db db' :
  allValid db -> evolves db (data db') ->
  collectionValidators db' = collectionValidators db -> allValid db'.
Proof.
  intros Hall Hev Hval id d Hin. rewrite (validate_same_validators db db' d Hval).
  eapply evolves_valid; eassumption.
Qed.

Lemma construct_initialize name st validators position db :
  construct name st validators position = Normal db ->
  db = initialize {| collectionName := name; storageType := st;
                     collectionValidators := validators; data := [];
                     drawn := position |}.
Proof.
  unfold construct. destruct (_ || _); [discriminate|]. now intros [= <-].
Qed.

(** C9. Every document of the map passes every validator: this holds
    after the constructor has loaded the stored snapshot, whose entries
    that fail validation are left out, and [create], [update], [import],
    [delete] and [clear] keep it. *)
Theorem documents_stay_valid :
  (forall name st validators position db,
      construct name st validators position = Normal db -> allValid db) /\
  (forall db,
      allValid db ->
      (forall fuel d outcome db', create fuel d db = Some (outcome, db') -> allValid db') /\
      (forall id patch, allValid (snd (update id patch db))) /\
      (forall t, allValid (snd (import t db))) /\
      (forall id, allValid (snd (delete id db))) /\
      allValid (snd (clear db))).
Proof.
  split.
  - intros name st validators position db Hnew.
    apply construct_initialize in Hnew. subst db.
    eapply allValid_evolves; [|apply initialize_evolves..].
    intros id d [].
  - intros db Hall. repeat split.
    + intros fuel d outcome db' Hcreate.
      apply create_evolves in Hcreate as [Hev Hval]. eapply allValid_evolves; eassumption.
    + intros id patch. eapply allValid_evolves; [exact Hall|apply update_evolves..].
    + intros t. eapply allValid_evolves; [exact Hall|apply import_evolves..].
    + intros id. eapply allValid_evolves; [exact Hall|apply delete_evolves..].
    + eapply allValid_evolves; [exact Hall|apply clear_evolves..].
Qed.

(** The same operations keep the keys of the map unique. *)
Lemma keys_stay_unique :
  (forall name st validators position db,
      construct name st validators position = Normal db ->
      JsMap.uniqueKeys (data db)) /\
  (forall db,
      JsMap.uniqueKeys (data db) ->
      (forall fuel d outcome db',
          create fuel d db = Some (outcome, db') -> JsMap.uniqueKeys (data db')) /\
      (forall id patch, JsMap.uniqueKeys (data (snd (update id patch db)))) /\
      (forall t, JsMap.uniqueKeys (data (snd (import t db)))) /\
      (forall id, JsMap.uniqueKeys (data (snd (delete id db)))) /\
      JsMap.uniqueKeys (data (snd (clear db)))).
Proof.
  split.
  - intros name st validators position db Hnew.
    apply construct_initialize in Hnew. subst db.
    eapply evolves_uniqueKeys; [|apply initialize_evolves]. apply NoDup_nil_2.
  - intros db Huniq. repeat split.
    + intros fuel d outcome db' Hcreate.
      apply create_evolves in Hcreate as [Hev _]. eapply evolves_uniqueKeys; eassumption.
    + intros id patch. eapply evolves_uniqueKeys; [exact Huniq|apply update_evolves].
    + intros t. eapply evolves_uniqueKeys; [exact Huniq|apply import_evolves].
    + intros id. eapply evolves_uniqueKeys; [exact Huniq|apply delete_evolves].
    + eapply evolves_uniqueKeys; [exact Huniq|apply clear_evolves].
Qed.

End Properties.

(** ** Arrays: [sort] and [slice] *)

Section SortFacts.
Context {A : Type}.
Variable compare : A -> A -> Z.

Lemma sortInsert_Permutation x (l : list A) : Permutation (sortInsert compare x l) (x :: l).
Proof.
  induction l as [|y l IH]; cbn [sortInsert]; [reflexivity|].
  destruct (0 <? compare x y)%Z; [|reflexivity].
  rewrite IH. apply perm_swap.
Qed.

Lemma insertionSort_Permutation (l : list A) : Permutation (insertionSort compare l) l.
Proof.
  induction l as [|x l IH]; cbn [insertionSort]; [reflexivity|].
  rewrite sortInsert_Permutation. now apply perm_skip.
Qed.

(** Stability: elements that [compare] does not put one after the other
    keep their order. [p] selects such a class of elements. *)
Variable p : A -> bool.

Lemma filter_sortInsert x (l : list A) :
  (forall y, In y l -> p x = true -> p y = true -> (0 <? compare x y)%Z = false) ->
  List.filter p (sortInsert compare x l) = List.filter p (x :: l).
Proof.
  induction l as [|y l IH]; cbn [sortInsert]; intros Hclass; [reflexivity|].
  destruct (0 <? compare x y)%Z eqn:Hafter; [|reflexivity].
  cbn [List.filter] in *.
  rewrite IH by (intros y' Hy' Hpx Hpy; apply Hclass; [now right|assumption..]).
  destruct (p x) eqn:Hx, (p y) eqn:Hy; try reflexivity.
  rewrite (Hclass y (or_introl eq_refl) eq_refl Hy) in Hafter. discriminate.
Qed.

Lemma filter_insertionSort (l : list A) :
  (forall x y, In x l -> In y l -> p x = true -> p y = true ->
               (0 <? compare x y)%Z = false) ->
  List.filter p (insertionSort compare l) = List.filter p l.
Proof.
  induction l as [|x l IH]; cbn [insertionSort]; intros Hclass; [reflexivity|].
  rewrite filter_sortInsert.
  - cbn [List.filter]. rewrite IH; [reflexivity|].
    intros y z Hy Hz. apply Hclass; now right.
  - intros y Hy. apply Hclass; [now left|right].
    eapply Permutation_in; [apply insertionSort_Permutation|exact Hy].
Qed.

End SortFacts.

Section SortedFacts.
Context {A : Type}.
Variable compare : A -> A -> Z.

(** When [compare] is consistent on the elements, what [insertionSort]
    returns is in order: no element is greater than a later one. *)
Variable domain : A -> Prop.
Hypothesis compare_total :
  forall x y, domain x -> domain y -> (0 < compare x y)%Z -> (compare y x <= 0)%Z.
Hypothesis compare_trans :
  forall x y z, domain x -> domain y -> domain z ->
                (compare x y <= 0)%Z -> (compare y z <= 0)%Z -> (compare x z <= 0)%Z.

Lemma sortInsert_ordered x (l : list A) :
  domain x -> Forall domain l -> ordered compare l -> ordered compare (sortInsert compare x l).
Proof.
  intros Hx Hdom Hsorted. induction Hsorted as [|y l Hsorted IH Hy]; cbn [sortInsert].
  - constructor; constructor.
  - apply Forall_cons_1 in Hdom as [Hdy Hdom].
    destruct (0 <? compare x y)%Z eqn:Hafter.
    + apply Z.ltb_lt in Hafter. constructor; [now apply IH|].
      rewrite (sortInsert_Permutation compare x l). constructor; [|exact Hy].
      now apply compare_total.
    + apply Z.ltb_ge in Hafter. constructor; [now constructor|].
      constructor; [exact Hafter|].
      rewrite List.Forall_forall in Hy, Hdom |- *. intros z Hz.
      apply (compare_trans x y z); auto.
Qed.

Lemma insertionSort_ordered (l : list A) :
  Forall domain l -> ordered compare (insertionSort compare l).
Proof.
  induction l as [|x l IH]; cbn [insertionSort]; intros Hdom; [constructor|].
  apply Forall_cons_1 in Hdom as [Hx Hdom].
  apply sortInsert_ordered; [exact Hx| |now apply IH].
  now rewrite (insertionSort_Permutation compare l).
Qed.

End SortedFacts.

(** *** Consistent comparators *)

Section ConsistentFacts.
Context {A : Type}.
Variable compare : A -> A -> Z.

(** What [consistent] decides. *)
Lemma consistent_spec (a : list A) :
  consistent compare a = true <->
  (forall x, In x a -> compare x x = 0%Z) /\
  (forall x y, In x a -> In y a -> compare x y = 0%Z -> compare y x = 0%Z) /\
  (forall x y z, In x a -> In y a -> In z a ->
                 compare x y = 0%Z -> compare y z = 0%Z -> compare x z = 0%Z) /\
  (forall x y z, In x a -> In y a -> In z a ->
                 (compare x y < 0)%Z -> (compare y z < 0)%Z -> (compare x z < 0)%Z) /\
  (forall x y z, In x a -> In y a -> In z a ->
                 (0 < compare x y)%Z -> (0 < compare y z)%Z -> (0 < compare x z)%Z).
Proof.
  unfold consistent. split.
  - intros Hall. rewrite forallb_forall in Hall.
    assert (Hxy : forall x y, In x a -> In y a ->
              implb (compare x y =? 0)%Z (compare y x =? 0)%Z = true).
    { intros x y Hx Hy. specialize (Hall x Hx). apply andb_prop in Hall as [_ Hall].
      rewrite forallb_forall in Hall. specialize (Hall y Hy).
      now apply andb_prop in Hall as [Hall _]. }
    assert (Hxyz : forall x y z, In x a -> In y a -> In z a ->
              implb ((compare x y =? 0)%Z && (compare y z =? 0)%Z) (compare x z =? 0)%Z &&
              implb ((compare x y <? 0)%Z && (compare y z <? 0)%Z) (compare x z <? 0)%Z &&
              implb ((0 <? compare x y)%Z && (0 <? compare y z)%Z) (0 <? compare x z)%Z = true).
    { intros x y z Hx Hy Hz. specialize (Hall x Hx). apply andb_prop in Hall as [_ Hall].
      rewrite forallb_forall in Hall. specialize (Hall y Hy).
      apply andb_prop in Hall as [_ Hall]. rewrite forallb_forall in Hall.
      exact (Hall z Hz). }
    repeat split.
    + intros x Hx. specialize (Hall x Hx). apply andb_prop in Hall as [Hall _]. lia.
    + intros x y Hx Hy. specialize (Hxy x y Hx Hy).
      destruct (Z.eqb_spec (compare x y) 0), (Z.eqb_spec (compare y x) 0);
        cbn in Hxy; try discriminate; lia.
    + intros x y z Hx Hy Hz. specialize (Hxyz x y z Hx Hy Hz).
      apply andb_prop in Hxyz as [Hxyz _]. apply andb_prop in Hxyz as [Hxyz _].
      destruct (Z.eqb_spec (compare x y) 0), (Z.eqb_spec (compare y z) 0),
        (Z.eqb_spec (compare x z) 0); cbn in Hxyz; try discriminate; lia.
    + intros x y z Hx Hy Hz. specialize (Hxyz x y z Hx Hy Hz).
      apply andb_prop in Hxyz as [Hxyz _]. apply andb_prop in Hxyz as [_ Hxyz].
      destruct (Z.ltb_spec (compare x y) 0), (Z.ltb_spec (compare y z) 0),
        (Z.ltb_spec (compare x z) 0); cbn in Hxyz; try discriminate; lia.
    + intros x y z Hx Hy Hz. specialize (Hxyz x y z Hx Hy Hz).
      apply andb_prop in Hxyz as [_ Hxyz].
      destruct (Z.ltb_spec 0 (compare x y)), (Z.ltb_spec 0 (compare y z)),
        (Z.ltb_spec 0 (compare x z)); cbn in Hxyz; try discriminate; lia.
  - intros (Hrefl & Hsym & Heq & Hlt & Hgt).
    apply forallb_forall. intros x Hx. apply andb_true_intro. split.
    { apply Z.eqb_eq. now apply Hrefl. }
    apply forallb_forall. intros y Hy. apply andb_true_intro. split.
    { specialize (Hsym x y Hx Hy).
      destruct (Z.eqb_spec (compare x y) 0), (Z.eqb_spec (compare y x) 0);
        cbn; try reflexivity; lia. }
    apply forallb_forall. intros z Hz.
    specialize (Heq x y z Hx Hy Hz). specialize (Hlt x y z Hx Hy Hz).
    specialize (Hgt x y z Hx Hy Hz).
    destruct (Z.eqb_spec (compare x y) 0), (Z.eqb_spec (compare y z) 0),
      (Z.eqb_spec (compare x z) 0), (Z.ltb_spec (compare x y) 0),
      (Z.ltb_spec (compare y z) 0), (Z.ltb_spec (compare x z) 0),
      (Z.ltb_spec 0 (compare x y)), (Z.ltb_spec 0 (compare y z)),
      (Z.ltb_spec 0 (compare x z)); cbn; try reflexivity; lia.
Qed.

Lemma consistent_incl (a b : list A) :
  (forall x, In x b -> In x a) -> consistent compare a = true -> consistent compare b = true.
Proof.
  intros Hincl Ha. apply consistent_spec in Ha as (Hrefl & Hsym & Heq & Hlt & Hgt).
  apply consistent_spec. repeat split; intros; eauto 10.
Qed.

Section Consistent.
Variable a : list A.
Hypothesis a_consistent : consistent compare a = true.

Lemma consistent_opposite x y :
  In x a -> In y a -> (0 < compare x y)%Z -> (compare y x < 0)%Z.
Proof.
  intros Hx Hy Hgreater.
  apply consistent_spec in a_consistent as (Hrefl & Hsym & _ & _ & Hgt).
  pose proof (Hrefl x Hx). pose proof (Hsym y x Hy Hx). pose proof (Hgt x y x Hx Hy Hx).
  lia.
Qed.

Lemma consistent_total x y :
  In x a -> In y a -> (0 < compare x y)%Z -> (compare y x <= 0)%Z.
Proof. intros Hx Hy Hgreater. pose proof (consistent_opposite x y Hx Hy Hgreater). lia. Qed.

Lemma consistent_less x y :
  In x a -> In y a -> (compare x y < 0)%Z -> (0 < compare y x)%Z.
Proof.
  intros Hx Hy Hless.
  apply consistent_spec in a_consistent as (Hrefl & Hsym & _ & Hlt & _).
  pose proof (Hrefl x Hx). pose proof (Hsym y x Hy Hx). pose proof (Hlt x y x Hx Hy Hx).
  lia.
Qed.

Lemma consistent_trans x y z :
  In x a -> In y a -> In z a ->
  (compare x y <= 0)%Z -> (compare y z <= 0)%Z -> (compare x z <= 0)%Z.
Proof.
  intros Hx Hy Hz Hxy Hyz.
  destruct (Z.lt_ge_cases 0 (compare x z)) as [Hgreater|]; [exfalso|lia].
  pose proof (consistent_opposite x z Hx Hz Hgreater) as Hzx.
  pose proof a_consistent as Hcons.
  apply consistent_spec in Hcons as (Hrefl & Hsym & Heq & Hlt & Hgt).
  pose proof (Heq x y z Hx Hy Hz). pose proof (Hlt x y z Hx Hy Hz).
  pose proof (Hlt z x y Hz Hx Hy). pose proof (Hsym y z Hy Hz).
  pose proof (Hlt y z x Hy Hz Hx). pose proof (Hsym x y Hx Hy).
  lia.
Qed.

(** Both ways not greater: the two elements compare equal. *)
Lemma consistent_antisym x y :
  In x a -> In y a -> (compare x y <= 0)%Z -> (compare y x <= 0)%Z -> compare x y = 0%Z.
Proof.
  intros Hx Hy Hxy Hyx.
  destruct (Z.eq_dec (compare x y) 0%Z) as [|Hne]; [assumption|].
  assert (Hless : (compare x y < 0)%Z) by lia.
  pose proof (consistent_less x y Hx Hy Hless). lia.
Qed.

(** [insertionSort] returns the elements in order, those that compare
    equal in the order they had. *)
Lemma insertionSort_consistent_ordered : ordered compare (insertionSort compare a).
Proof.
  apply (insertionSort_ordered compare (fun x => In x a)).
  - exact consistent_total.
  - exact consistent_trans.
  - apply List.Forall_forall. auto.
Qed.

Lemma insertionSort_stable : stable compare a (insertionSort compare a).
Proof.
  intros x Hx. apply filter_insertionSort. intros y z Hy Hz Hxy Hxz.
  apply Z.eqb_eq in Hxy, Hxz. apply Z.ltb_ge.
  pose proof a_consistent as Hcons.
  apply consistent_spec in Hcons as (_ & Hsym & Heq & _ & _).
  rewrite (Heq y x z Hy Hx Hz); [lia|now apply Hsym|exact Hxz].
Qed.

End Consistent.

(** There is one arrangement of the elements that is in order and keeps
    the order of the elements that compare equal. *)
Lemma ordered_stable_eq (r1 r2 : list A) :
  consistent compare r1 = true ->
  Permutation r1 r2 ->
  ordered compare r1 -> ordered compare r2 ->
  (forall x, In x r1 ->
     List.filter (fun y => (compare x y =? 0)%Z) r1 =
     List.filter (fun y => (compare x y =? 0)%Z) r2) ->
  r1 = r2.
Proof.
  revert r2. induction r1 as [|x t1 IH]; intros r2 Hcons Hperm Hord1 Hord2 Hclasses.
  - apply Permutation_nil in Hperm. now subst.
  - destruct r2 as [|y t2]; [apply Permutation_sym, Permutation_nil in Hperm; discriminate|].
    apply StronglySorted_inv in Hord1 as [Hord1 Hx].
    apply StronglySorted_inv in Hord2 as [Hord2 Hy].
    rewrite List.Forall_forall in Hx, Hy.
    pose proof Hcons as Hspec.
    apply consistent_spec in Hspec as (Hrefl & Hsym & _).
    assert (Hxx : compare x x = 0%Z) by (apply Hrefl; now left).
    assert (Hyin : In y (x :: t1))
      by (eapply Permutation_in; [symmetry; exact Hperm|now left]).
    assert (Hxin : In x (y :: t2)) by (eapply Permutation_in; [exact Hperm|now left]).
    assert (Hxy : (compare x y <= 0)%Z).
    { destruct Hyin as [<-|Hyin]; [lia|now apply Hx]. }
    assert (Hyx : (compare y x <= 0)%Z).
    { destruct Hxin as [<-|Hxin]; [lia|now apply Hy]. }
    assert (Hequal : compare x y = 0%Z).
    { apply (consistent_antisym (x :: t1) Hcons); [now left|exact Hyin|exact Hxy|exact Hyx]. }
    pose proof (Hclasses x (or_introl eq_refl)) as Hhead. cbn [List.filter] in Hhead.
    rewrite Hxx, Hequal in Hhead. cbn in Hhead. injection Hhead as -> Htails.
    f_equal. apply IH.
    + eapply consistent_incl; [|exact Hcons]. intros z Hz. now right.
    + eapply Permutation_cons_inv. exact Hperm.
    + exact Hord1.
    + exact Hord2.
    + intros z Hz. pose proof (Hclasses z (or_intror Hz)) as Hclass.
      cbn [List.filter] in Hclass.
      destruct (compare z y =? 0)%Z; [now injection Hclass|exact Hclass].
Qed.

(** So what ECMA-262 asks of [sort] for a consistent comparator is what
    [insertionSort] returns. *)
Lemma sorted_stable_unique (a sorted : list A) :
  consistent compare a = true ->
  Permutation sorted a -> ordered compare sorted -> stable compare a sorted ->
  sorted = insertionSort compare a.
Proof.
  intros Hcons Hperm Hord Hstable. apply ordered_stable_eq.
  - eapply consistent_incl; [|exact Hcons]. intros x Hx.
    eapply Permutation_in; [exact Hperm|exact Hx].
  - rewrite Hperm. symmetry. apply insertionSort_Permutation.
  - exact Hord.
  - now apply insertionSort_consistent_ordered.
  - intros x Hx.
    assert (Hin : In x a) by (eapply Permutation_in; [exact Hperm|exact Hx]).
    rewrite (Hstable x Hin). symmetry. now apply insertionSort_stable.
Qed.

End ConsistentFacts.

(** *** [Array.prototype.sort] *)

Section EngineFacts.
Context `{runtime : Runtime} {A : Type}.
Variable compare : A -> A -> Z.

Lemma move_Permutation (a : list A) (from to : nat) : Permutation (move a from to) a.
Proof.
  unfold move. destruct (nth_error a from) as [x|] eqn:Hnth; [|reflexivity].
  apply nth_error_split in Hnth as (before & after & -> & <-).
  assert (Htake : firstn (List.length before) (before ++ x :: after) = before).
  { induction before as [|h before IH]; cbn; [reflexivity|now rewrite IH]. }
  assert (Hdrop : skipn (S (List.length before)) (before ++ x :: after) = after).
  { clear Htake. induction before as [|h before IH]; cbn; [reflexivity|exact IH]. }
  rewrite Htake, Hdrop. rewrite <- !Permutation_middle.
  now rewrite firstn_skipn.
Qed.

Lemma moves_Permutation (moves : list (nat * nat)) (a : list A) :
  Permutation (fold_left (fun w m => move w (fst m) (snd m)) moves a) a.
Proof.
  revert a. induction moves as [|m moves IH]; intros a; cbn [fold_left]; [reflexivity|].
  rewrite IH. apply move_Permutation.
Qed.

(** Whatever the run time and the comparison function, [sort] rearranges
    the elements. *)
Lemma sort_Permutation (a : list A) : Permutation (sort compare a) a.
Proof.
  unfold sort. destruct (consistent compare a).
  - apply insertionSort_Permutation.
  - apply moves_Permutation.
Qed.

Lemma sort_consistent (a : list A) :
  consistent compare a = true -> sort compare a = insertionSort compare a.
Proof. unfold sort. now intros ->. Qed.

(** For a consistent comparator the result is in order and stable. *)
Lemma sort_ordered (a : list A) :
  consistent compare a = true -> ordered compare (sort compare a).
Proof.
  intros Hcons. rewrite (sort_consistent a Hcons).
  now apply insertionSort_consistent_ordered.
Qed.


End EngineFacts.

Section SliceFacts.
Context {A : Type}.

(** [a.slice(0, n)] is the first [n] elements when [n] is not negative,
    all of them when there are fewer. *)
Lemma slice_first (a : list A) (n : Z) :
  (0 <= n)%Z -> slice a 0 n = firstn (Z.to_nat n) a.
Proof.
  intros Hn. unfold slice. cbn [Z.ltb Z.compare].
  destruct (n <? 0)%Z eqn:Hneg; [apply Z.ltb_lt in Hneg; lia|].
  rewrite (Z.min_l 0) by lia. change (skipn (Z.to_nat 0) a) with a.
  rewrite Z.sub_0_r.
  destruct (Z.le_ge_cases n (Z.of_nat (List.length a))) as [Hle|Hge].
  - now rewrite Z.min_l by exact Hle.
  - rewrite Z.min_r by exact Hge. rewrite Nat2Z.id.
    rewrite firstn_all. symmetry. apply firstn_all2. lia.
Qed.

(** [a.slice(0, n)] for a negative [n] drops the last [-n] elements. *)
Lemma slice_negative (a : list A) (n : Z) :
  (n < 0)%Z -> slice a 0 n = firstn (List.length a - Z.to_nat (- n)) a.
Proof.
  intros Hn. unfold slice. cbn [Z.ltb Z.compare].
  destruct (n <? 0)%Z eqn:Hneg; [|apply Z.ltb_ge in Hneg; lia].
  rewrite (Z.min_l 0) by lia. change (skipn (Z.to_nat 0) a) with a.
  rewrite Z.sub_0_r.
  f_equal. lia.
Qed.

End SliceFacts.

(** ** Strings *)

Section StringFacts.

Lemma prefix_lowerAsciiString (a b : string) :
  String.prefix a b = true ->
  String.prefix (lowerAsciiString a) (lowerAsciiString b) = true.
Proof.
  revert b. induction a as [|c a IH]; intros b; [now destruct b|].
  destruct b as [|c' b]; cbn [String.prefix lowerAsciiString]; [discriminate|].
  destruct (Ascii.ascii_dec c c') as [->|Hne]; [|discriminate].
  intros Hpre. destruct (Ascii.ascii_dec (lowerAscii c') (lowerAscii c')); [auto|congruence].
Qed.

Lemma includes_lowerAsciiString (hay needle : string) :
  includes hay needle = true ->
  includes (lowerAsciiString hay) (lowerAsciiString needle) = true.
Proof.
  induction hay as [|c hay IH]; cbn [includes lowerAsciiString]; intros Hin;
    apply orb_true_iff in Hin as [Hpre|Hin].
  - apply prefix_lowerAsciiString in Hpre. cbn [lowerAsciiString] in Hpre. now rewrite Hpre.
  - discriminate.
  - apply prefix_lowerAsciiString in Hpre. cbn [lowerAsciiString] in Hpre. now rewrite Hpre.
  - rewrite (IH Hin). apply orb_true_r.
Qed.

Lemma prefix_refl (s : string) : String.prefix s s = true.
Proof.
  induction s as [|c s IH]; [reflexivity|]. cbn [String.prefix].
  destruct (Ascii.ascii_dec c c); [exact IH|congruence].
Qed.


Lemma includes_prefix (hay needle : string) :
  String.prefix needle hay = true -> includes hay needle = true.
Proof. intros Hpre. destruct hay; cbn [includes]; now rewrite Hpre. Qed.

Lemma includes_substring (hay needle : string) (n : nat) :
  substring n (String.length needle) hay = needle -> includes hay needle = true.
Proof.
  revert n. induction hay as [|c hay IH]; intros n Hsub.
  - apply includes_prefix. apply prefix_correct.
    destruct n; cbn [substring] in Hsub; destruct (String.length needle) eqn:E;
      cbn [substring] in Hsub |- *; congruence.
  - destruct n as [|n].
    + apply includes_prefix. now apply prefix_correct.
    + cbn [substring] in Hsub. cbn [includes]. rewrite (IH n Hsub). apply orb_true_r.
Qed.

Lemma substring_all (s : string) : substring 0 (String.length s) s = s.
Proof. induction s as [|c s IH]; cbn [String.length substring]; [reflexivity|]. now rewrite IH. Qed.

Lemma ltb_irrefl (s : string) : String.ltb s s = false.
Proof.
  unfold String.ltb. pose proof (String.compare_antisym s s) as Hanti.
  destruct (String.compare s s); cbn in Hanti; congruence.
Qed.

Lemma string_order (x y : string) :
  (String.ltb x y = true /\ x <> y /\ String.ltb y x = false) \/
  (String.ltb x y = false /\ x = y /\ String.ltb y x = false) \/
  (String.ltb x y = false /\ x <> y /\ String.ltb y x = true).
Proof.
  unfold String.ltb. rewrite (String.compare_antisym y x).
  destruct (String.compare x y) eqn:Hcmp; cbn [CompOpp].
  - right. left. apply String.compare_eq_iff in Hcmp. auto.
  - left. repeat split. intros ->.
    pose proof (ltb_irrefl y) as Hirr. unfold String.ltb in Hirr. now rewrite Hcmp in Hirr.
  - right. right. repeat split. intros ->.
    pose proof (String.compare_antisym y y) as Hanti. rewrite Hcmp in Hanti. discriminate.
Qed.

Lemma ltb_trans (x y z : string) :
  String.ltb x y = true -> String.ltb y z = true -> String.ltb x z = true.
Proof.
  unfold String.ltb. intros Hxy Hyz.
  destruct (String.compare x y) eqn:Hcxy; try discriminate.
  destruct (String.compare y z) eqn:Hcyz; try discriminate.
  apply String_as_OT.cmp_lt in Hcxy, Hcyz.
  pose proof (String_as_OT.lt_trans _ _ _ Hcxy Hcyz) as Hxz.
  apply String_as_OT.cmp_lt in Hxz. unfold String_as_OT.cmp in Hxz. now rewrite Hxz.
Qed.

(** On a string of ASCII characters [toLowerCase] lowers the letters one
    by one, whatever the run time. *)
Lemma toLowerCase_ascii `{runtime : Runtime} (s : string) :
  allChars isAscii s = true -> toLowerCase s = lowerAsciiString s.
Proof. unfold toLowerCase. now intros ->. Qed.

End StringFacts.

(** ** Queries *)

Section QueryProperties.
Context `{runtime : Runtime} `{host : Host StorageType}.

Implicit Types (db : Database StorageType) (d : doc) (id : string).


(** The entries [query] keeps are those that satisfy every condition. *)
Lemma matching_In conditions db id d :
  In (id, d) (matching conditions db) <->
  In (id, d) (data db) /\
  forall c, In c conditions -> evaluateCondition d c = true.
Proof. unfold matching. rewrite filter_In, forallb_forall. reflexivity. Qed.

Lemma matching_nil db : matching [] db = data db.
Proof.
  unfold matching. cbn [forallb].
  induction (data db) as [|e l IH]; [reflexivity|]. cbn [List.filter]. now rewrite IH.
Qed.

Lemma query_In conditions sortEntries db id d :
  In (Found id d) (query conditions sortEntries None db) <->
  In (id, d) (data db) /\
  forall c, In c conditions -> evaluateCondition d c = true.
Proof.
  rewrite <- matching_In. unfold query. rewrite in_map_iff. split.
  - intros [[id' d'] [[= -> ->] Hin]]. destruct sortEntries as [s|]; [|exact Hin].
    eapply Permutation_in; [apply sort_Permutation|exact Hin].
  - intros Hin. exists (id, d). split; [reflexivity|].
    destruct sortEntries as [s|]; [|exact Hin].
    eapply Permutation_in; [symmetry; apply sort_Permutation|exact Hin].
Qed.

(** A limit that is not negative keeps the first [limit] results. *)
Lemma query_limit conditions sortEntries (limit : Z) db :
  (0 <= limit)%Z ->
  query conditions sortEntries (Some limit) db =
  firstn (Z.to_nat limit) (query conditions sortEntries None db).
Proof.
  intros Hlimit. unfold query. rewrite slice_first by exact Hlimit.
  now rewrite firstn_map.
Qed.

(** A negative limit drops the last [- limit] results and keeps the
    others. *)
Lemma query_negative_limit conditions sortEntries (limit : Z) db :
  (limit < 0)%Z ->
  query conditions sortEntries (Some limit) db =
  firstn (List.length (query conditions sortEntries None db) - Z.to_nat (- limit))
         (query conditions sortEntries None db).
Proof.
  intros Hlimit. unfold query. rewrite slice_negative by exact Hlimit.
  now rewrite firstn_map, length_map.
Qed.

(** *** The comparison of two documents *)

Lemma strictEquals_true (a b : value) : strictEquals a b = true -> a = b.
Proof.
  unfold strictEquals. destruct a; try discriminate; apply bool_decide_eq_true.
Qed.

Lemma strictEquals_refl (a : value) : a <> VNaN -> strictEquals a a = true.
Proof.
  unfold strictEquals. destruct a; try congruence; intros _; now apply bool_decide_eq_true.
Qed.



Lemma sameSortKey_app before after (a b : doc) :
  sameSortKey (before ++ after) a b = sameSortKey before a b && sameSortKey after a b.
Proof. unfold sameSortKey. apply forallb_app. Qed.




(** *** When the comparison is consistent *)

Lemma compareEntries_cons f direction rest (a b : doc) :
  compareEntries ((f, direction) :: rest) a b =
  if (compareValues (prop a f) (prop b f) =? 0)%Z then compareEntries rest a b
  else match direction with
       | asc => compareValues (prop a f) (prop b f)
       | desc => (- compareValues (prop a f) (prop b f))%Z
       end.
Proof.
  cbn [compareEntries]. unfold compareValues.
  destruct (strictEquals (prop a f) (prop b f)); [reflexivity|].
  now destruct (lessThan (prop a f) (prop b f)), direction.
Qed.

Lemma compareValues_range (u v : value) :
  compareValues u v = (-1)%Z \/ compareValues u v = 0%Z \/ compareValues u v = 1%Z.
Proof. unfold compareValues. destruct (strictEquals u v), (lessThan u v); auto. Qed.

Lemma compareValues_integers (x y : Z) :
  compareValues (VNum x) (VNum y) =
  if (x =? y)%Z then 0%Z else if (x <? y)%Z then (-1)%Z else 1%Z.
Proof.
  unfold compareValues, strictEquals, lessThan, IsLessThan.
  cbn [stringOperand ToNumber numberLessThan].
  destruct (Z.eqb_spec x y) as [->|Hne].
  - now rewrite bool_decide_eq_true_2.
  - rewrite bool_decide_eq_false_2 by congruence. reflexivity.
Qed.

Lemma compareValues_equal (u v : value) : compareValues u v = 0%Z -> u = v.
Proof.
  unfold compareValues. destruct (strictEquals u v) eqn:Heq.
  - intros _. now apply strictEquals_true.
  - destruct (lessThan u v); discriminate.
Qed.

(** Numbers other than NaN are ordered in a line, and so are strings. *)
Lemma isNumber_linear : linear isNumber.
Proof.
  repeat split.
  - intros u Hu. unfold compareValues. rewrite strictEquals_refl; [reflexivity|].
    destruct u; discriminate.
  - intros u v Hu Hv.
    destruct u as [| | |x| |[|]| |]; try discriminate;
      destruct v as [| | |y| |[|]| |]; try discriminate; try reflexivity.
    rewrite !compareValues_integers.
    destruct (Z.eqb_spec x y), (Z.eqb_spec y x), (Z.ltb_spec x y), (Z.ltb_spec y x); lia.
  - intros u v _ _. apply compareValues_equal.
  - intros u v w Hu Hv Hw.
    destruct u as [| | |x| |[|]| |]; try discriminate;
      destruct v as [| | |y| |[|]| |]; try discriminate;
      destruct w as [| | |z| |[|]| |]; try discriminate;
      try reflexivity; try discriminate;
      rewrite ?compareValues_integers; intros Huv Hvw;
      try reflexivity; try discriminate.
    destruct (Z.eqb_spec x y), (Z.eqb_spec y z), (Z.eqb_spec x z),
      (Z.ltb_spec x y), (Z.ltb_spec y z), (Z.ltb_spec x z); lia.
Qed.

Lemma compareValues_strings (x y : string) :
  compareValues (VStr x) (VStr y) =
  if String.eqb x y then 0%Z else if String.ltb x y then (-1)%Z else 1%Z.
Proof.
  unfold compareValues, strictEquals, lessThan, IsLessThan. cbn [stringOperand].
  destruct (String.eqb_spec x y) as [->|Hne].
  - now rewrite bool_decide_eq_true_2.
  - rewrite bool_decide_eq_false_2 by congruence. reflexivity.
Qed.

Lemma isString_linear : linear isString.
Proof.
  repeat split.
  - intros u Hu. unfold compareValues. rewrite strictEquals_refl; [reflexivity|].
    destruct u; discriminate.
  - intros u v Hu Hv. destruct u as [| | | | | |x|]; try discriminate.
    destruct v as [| | | | | |y|]; try discriminate.
    rewrite !compareValues_strings, (String.eqb_sym y x).
    destruct (String.eqb_spec x y) as [->|Hne]; [reflexivity|].
    destruct (string_order x y) as [(-> & _ & ->)|[(_ & Heq & _)|(-> & _ & ->)]];
      [reflexivity|contradiction|reflexivity].
  - intros u v _ _. apply compareValues_equal.
  - intros u v w Hu Hv Hw. destruct u as [| | | | | |x|]; try discriminate.
    destruct v as [| | | | | |y|]; try discriminate.
    destruct w as [| | | | | |z|]; try discriminate.
    rewrite !compareValues_strings.
    destruct (String.eqb_spec x y) as [|Hxy]; [discriminate|].
    destruct (String.eqb_spec y z) as [|Hyz]; [discriminate|].
    destruct (String.ltb x y) eqn:Hlxy; [|discriminate].
    destruct (String.ltb y z) eqn:Hlyz; [|discriminate].
    intros _ _. rewrite (ltb_trans x y z Hlxy Hlyz).
    destruct (String.eqb_spec x z) as [->|]; [|reflexivity].
    destruct (string_order z y) as [(_ & _ & Hno)|[(Hno & _)|(Hno & _)]]; congruence.
Qed.

(** The comparison function is consistent on three documents that hold,
    in each field of the sort, values of one kind that is ordered in a
    line. *)
Lemma compareEntries_linear sortEntries (a b c : doc) :
  (forall f direction, In (f, direction) sortEntries ->
     exists kind, linear kind /\
       kind (prop a f) = true /\ kind (prop b f) = true /\ kind (prop c f) = true) ->
  compareEntries sortEntries a a = 0%Z /\
  (compareEntries sortEntries a b = 0%Z -> compareEntries sortEntries b a = 0%Z) /\
  (compareEntries sortEntries a b = 0%Z -> compareEntries sortEntries b c = 0%Z ->
   compareEntries sortEntries a c = 0%Z) /\
  (compareEntries sortEntries a b < 0 -> compareEntries sortEntries b c < 0 ->
   compareEntries sortEntries a c < 0)%Z /\
  (0 < compareEntries sortEntries a b -> 0 < compareEntries sortEntries b c ->
   0 < compareEntries sortEntries a c)%Z.
Proof.
  induction sortEntries as [|[f direction] rest IH]; intros Hkinds.
  { cbn [compareEntries]. repeat split; lia. }
  destruct (Hkinds f direction (or_introl eq_refl))
    as (kind & (Hrefl & Hopp & Heq & Htrans) & Ka & Kb & Kc).
  destruct IH as (IHa & IHsym & IHeq & IHlt & IHgt).
  { intros f' direction' Hin. apply (Hkinds f' direction'). now right. }
  rewrite !compareEntries_cons.
  pose proof (Hrefl _ Ka) as Haa.
  pose proof (Hopp _ _ Ka Kb) as Hba.
  pose proof (Hopp _ _ Kb Kc) as Hcb.
  pose proof (Hopp _ _ Ka Kc) as Hca.
  pose proof (compareValues_range (prop a f) (prop b f)) as Rab.
  pose proof (compareValues_range (prop b f) (prop c f)) as Rbc.
  pose proof (compareValues_range (prop a f) (prop c f)) as Rac.
  pose proof (Htrans _ _ _ Ka Kb Kc) as Tabc.
  pose proof (Htrans _ _ _ Kc Kb Ka) as Tcba.
  assert (Eab : compareValues (prop a f) (prop b f) = 0%Z ->
                compareValues (prop a f) (prop c f) = compareValues (prop b f) (prop c f))
    by (intros E; now rewrite (Heq _ _ Ka Kb E)).
  assert (Ebc : compareValues (prop b f) (prop c f) = 0%Z ->
                compareValues (prop a f) (prop c f) = compareValues (prop a f) (prop b f))
    by (intros E; now rewrite (Heq _ _ Kb Kc E)).
  assert (Eac : compareValues (prop a f) (prop c f) = 0%Z ->
                compareValues (prop b f) (prop c f) = compareValues (prop b f) (prop a f))
    by (intros E; now rewrite (Heq _ _ Ka Kc E)).
  rewrite Haa. cbn [Z.eqb].
  generalize dependent (compareValues (prop a f) (prop b f)). intros ab.
  generalize dependent (compareValues (prop b f) (prop c f)). intros bc.
  generalize dependent (compareValues (prop a f) (prop c f)). intros ac.
  generalize dependent (compareValues (prop b f) (prop a f)). intros ba.
  generalize dependent (compareValues (prop c f) (prop b f)). intros cb.
  generalize dependent (compareValues (prop c f) (prop a f)). intros ca.
  intros. subst ba cb ca. clear Hkinds Hrefl Hopp Heq Htrans Ka Kb Kc Haa.
  destruct Rab as [Hab|[Hab|Hab]], Rbc as [Hbc|[Hbc|Hbc]], Rac as [Hac|[Hac|Hac]];
    subst ab bc ac; try (exfalso; lia); destruct direction;
    change (- 0)%Z with 0%Z; cbn; lia.
Qed.

Lemma comparable_consistent sortEntries (entries : list (string * doc)) :
  comparable sortEntries (List.map snd entries) ->
  consistent (fun x y => compareEntries sortEntries (snd x) (snd y)) entries = true.
Proof.
  intros Hcomparable.
  assert (Hlinear : forall x y z, In x entries -> In y entries -> In z entries ->
            forall f direction, In (f, direction) sortEntries ->
            exists kind, linear kind /\ kind (prop (snd x) f) = true /\
                         kind (prop (snd y) f) = true /\ kind (prop (snd z) f) = true).
  { intros x y z Hx Hy Hz f direction Hin.
    apply (in_map snd) in Hx, Hy, Hz.
    destruct (Hcomparable f direction Hin) as [Hnumbers|Hstrings].
    - exists isNumber. split; [exact isNumber_linear|]. auto.
    - exists isString. split; [exact isString_linear|]. auto. }
  apply consistent_spec. repeat split.
  - intros x Hx.
    exact (proj1 (compareEntries_linear sortEntries _ _ _ (Hlinear x x x Hx Hx Hx))).
  - intros x y Hx Hy.
    destruct (compareEntries_linear sortEntries _ _ _ (Hlinear x y y Hx Hy Hy))
      as (_ & Hsym & _). exact Hsym.
  - intros x y z Hx Hy Hz.
    destruct (compareEntries_linear sortEntries _ _ _ (Hlinear x y z Hx Hy Hz))
      as (_ & _ & Heq & _). exact Heq.
  - intros x y z Hx Hy Hz.
    destruct (compareEntries_linear sortEntries _ _ _ (Hlinear x y z Hx Hy Hz))
      as (_ & _ & _ & Hlt & _). exact Hlt.
  - intros x y z Hx Hy Hz.
    destruct (compareEntries_linear sortEntries _ _ _ (Hlinear x y z Hx Hy Hz))
      as (_ & _ & _ & _ & Hgt). exact Hgt.
Qed.


(** C4, at a negative limit: with three documents in the collection,
    [query([], undefined, -1)] returns two of them. *)
Theorem query_negative_limit_returns_documents (st : StorageType) :
  query [] None (Some (-1)%Z) (people st) =
  [Found "00000000000000a1" (user "Ann" 20);
   Found "00000000000000c1" (user "Cid" 20)].
Proof. vm_compute. reflexivity. Qed.

End QueryProperties.

(** ** Snapshots: export, import and the load of the constructor *)

Section SnapshotProperties.
Context `{runtime : Runtime} `{host : Host StorageType}.

Implicit Types (db acc other : Database StorageType) (d : doc) (id : string).

Lemma representable_lookup d key v :
  representable d = true -> d !! key = Some v -> scalar v = true.
Proof.
  unfold representable. rewrite forallb_forall. intros Hall Hlookup.
  apply elem_of_map_to_list, list_elem_of_In in Hlookup.
  exact (Hall _ Hlookup).
Qed.

(** [JSON.parse] gives back a document that [JSON.stringify] wrote in
    full and as it is. *)
Lemma parse_stringify_document d :
  representable d = true -> ofJSON <$> omap toJSON d = d.
Proof.
  intros Hd. apply map_eq. intros key. rewrite lookup_fmap, lookup_omap.
  destruct (d !! key) as [v|] eqn:Hlookup; [|reflexivity].
  pose proof (representable_lookup d key v Hd Hlookup) as Hv.
  destruct v; try discriminate; reflexivity.
Qed.

Lemma parse_stringify (entries : list (string * doc)) :
  (forall id d, In (id, d) entries -> representable d = true) ->
  JSON_parse (JSON_stringify entries) = Normal entries.
Proof.
  intros Hall. unfold JSON_stringify, JSON_parse. f_equal. rewrite List.map_map.
  cbn [fst snd]. induction entries as [|[id d] entries IH]; [reflexivity|].
  cbn [List.map fst snd]. rewrite parse_stringify_document, IH.
  - reflexivity.
  - intros id' d' Hin. apply (Hall id' d'). now right.
  - apply (Hall id d). now left.
Qed.

Lemma filter_all {A : Type} (p : A -> bool) (l : list A) :
  (forall x, In x l -> p x = true) -> List.filter p l = l.
Proof.
  induction l as [|x l IH]; intros Hall; [reflexivity|]. cbn [List.filter].
  rewrite (Hall x) by now left. rewrite IH; [reflexivity|].
  intros y Hy. apply Hall. now right.
Qed.



(** C7, amended. When the name is accepted, the constructor does not
    fail. When the stored text is absent or is the empty string, the
    collection is empty and the host is not written to. When the host
    throws on reading or the stored text does not parse, the collection
    is empty and the host has been asked twice, by [clear] and by
    [saveChanges], to store the empty snapshot. *)
Theorem load_without_usable_snapshot name st validators position :
  (1 <= String.length name)%nat ->
  (String.length name <= 16)%nat ->
  (getDynamicProperty st name = Normal None \/
   getDynamicProperty st name = Normal (Some (Malformed "")) ->
   construct name st validators position = Normal (fresh name st validators position)) /\
  ((exists e, getDynamicProperty st name = Throw e) \/
   (exists raw, raw <> "" /\
                getDynamicProperty st name = Normal (Some (Malformed raw))) ->
   construct name st validators position =
   Normal (fresh name
             (snd (setDynamicProperty
                     (snd (setDynamicProperty st name (JSON_stringify [])))
                     name (JSON_stringify [])))
             validators position)).
Proof.
  intros Hmin Hmax.
  assert (Hname : (String.length name <? 1)%nat || (16 <? String.length name)%nat = false).
  { apply orb_false_iff. split; apply Nat.ltb_ge; lia. }
  assert (Hrecover : forall db0, db0 = fresh name st validators position ->
            recover db0 =
            fresh name
              (snd (setDynamicProperty
                      (snd (setDynamicProperty st name (JSON_stringify [])))
                      name (JSON_stringify [])))
              validators position).
  { intros db0 ->. unfold recover, clear. now rewrite !saveChanges_snd. }
  unfold construct. rewrite Hname. fold (fresh name st validators position).
  unfold initialize. cbn [storageType collectionName fresh].
  fold (fresh name st validators position). split.
  - intros [-> | ->]; reflexivity.
  - intros [[e ->] | (raw & Hraw & ->)].
    + now rewrite Hrecover.
    + destruct raw as [|c raw]; [congruence|]. cbn [truthy JSON_parse].
      now rewrite Hrecover.
Qed.

(** *** The older class *)

(** The older [create] returns the identifier and keeps the document in
    the map whatever the host answers, also when it refuses the snapshot. *)
Lemma legacy_create_keeps_unsaved_document d db :
  validate db d = true ->
  exists db',
    Legacy.create d db = (Normal (candidate db 0), db') /\
    JsMap.get (data db') (candidate db 0) = Some d.
Proof.
  intros Hvalid. unfold Legacy.create, Legacy.generateId, Legacy.set.
  rewrite Hvalid. cbn [negb].
  change (validate (withDrawn db (drawn db + 16)) d) with (validate db d).
  rewrite Hvalid. cbn [negb]. rewrite candidate_0. eexists. split; [reflexivity|].
  unfold Legacy.saveChanges. cbn [data withStorage withData withDrawn].
  apply get_set_same.
Qed.

(** The older [initialize] treats a missing and a broken text as the
    newer one does. *)
Lemma legacy_load_without_usable_snapshot name st validators position :
  (getDynamicProperty st name = Normal None \/
   getDynamicProperty st name = Normal (Some (Malformed "")) ->
   Legacy.initialize (fresh name st validators position) =
   fresh name st validators position) /\
  ((exists e, getDynamicProperty st name = Throw e) \/
   (exists raw, raw <> "" /\
                getDynamicProperty st name = Normal (Some (Malformed raw))) ->
   Legacy.initialize (fresh name st validators position) =
   fresh name
     (snd (setDynamicProperty
             (snd (setDynamicProperty st name (JSON_stringify [])))
             name (JSON_stringify [])))
     validators position).
Proof.
  unfold Legacy.initialize. cbn [storageType collectionName fresh].
  fold (fresh name st validators position). split.
  - intros [-> | ->]; reflexivity.
  - intros [[e ->] | (raw & Hraw & ->)].
    + reflexivity.
    + destruct raw as [|c raw]; [congruence|]. reflexivity.
Qed.

End SnapshotProperties.

(** * The theorems on concrete collections *)

(** A third user does not fit: the first candidate is a key, the second is
    not, the world refuses the snapshot and the map is as before. *)
Lemma create_rolls_back_witness :
  exists db',
    create (runtime := twice) 3 (user "Cid" 20) pair = Some (Normal None, db') /\
    data db' = data pair /\
    findById (candidate (runtime := twice) pair 1) db' = None.
Proof.
  apply (create_rolls_back (runtime := twice) 3 (user "Cid" 20) pair 1).
  - reflexivity.
  - intros j Hj. assert (j = 0) as -> by lia. reflexivity.
  - reflexivity.
  - lia.
  - reflexivity.
Defined.

(** The loop passes the candidate that is a key; three calls of [create],
    the second with a document that fails validation, give two identifiers. *)
Lemma identifiers_fresh_and_distinct_witness :
  (exists db',
      generateId (runtime := twice) 3 pair = Some ("2222222222222222", db') /\
      data db' = data pair) /\
  NoDup ["0000000000000000"; "1111111111111111"].
Proof.
  destruct (identifiers_fresh_and_distinct (runtime := twice) (StorageType := World))
    as (Hreturns & _ & Hdistinct).
  split.
  - apply (Hreturns 3 pair 1).
    + intros j Hj. assert (j = 0) as -> by lia. reflexivity.
    + reflexivity.
    + lia.
  - refine (proj1 (Hdistinct 3 [user "Ann" 20; user "" 5; user "Ben" 30]
                             (fresh "people" emptyWorld userValidators 0)
                             [Normal (Some "0000000000000000");
                              Throw "Invalid data format";
                              Normal (Some "1111111111111111")]
                             _ _)).
    reflexivity.
Defined.

(** An age of 0 is rejected although the name is not in the patch; a new
    name is accepted, the world refuses the snapshot and Ann is put back. *)
Lemma update_validates_merged_and_rolls_back_witness :
  update "0000000000000000" {["age" := VNum 0]} pair =
    (Throw "Invalid data format", pair) /\
  exists db',
    update "0000000000000000" {["name" := VStr "Bob"]} pair =
      (Normal false, db') /\
    data db' = data pair /\
    findById "0000000000000000" db' = Some (Found "0000000000000000" (user "Ann" 20)).
Proof.
  split.
  - destruct (update_validates_merged_and_rolls_back
                "0000000000000000" {["age" := VNum 0]} (user "Ann" 20) pair)
      as (_ & Hthrows & _); [reflexivity|].
    apply Hthrows. reflexivity.
  - destruct (update_validates_merged_and_rolls_back
                "0000000000000000" {["name" := VStr "Bob"]} (user "Ann" 20) pair)
      as (_ & _ & Hrollback); [reflexivity|].
    apply Hrollback; reflexivity.
Defined.



(** A text that does not parse is replaced by the empty snapshot. *)
Lemma load_without_usable_snapshot_witness :
  construct "people" brokenWorld userValidators 0 =
  Normal (fresh "people"
            {| properties := [("people", Snapshot [])]; capacity := 100 |}
            userValidators 0).
Proof.
  destruct (load_without_usable_snapshot "people" brokenWorld userValidators 0)
    as (_ & Hrecovers).
  - vm_compute. lia.
  - vm_compute. lia.
  - apply Hrecovers. right. exists "[[". split; [discriminate|reflexivity].
Defined.

(** The two users stay valid through an update. *)
Lemma documents_stay_valid_witness :
  allValid (snd (update "0000000000000000" {["age" := VNum 21]} pair)).
Proof.
  destruct (documents_stay_valid (runtime := twice) (StorageType := World)) as (_ & Hkept).
  destruct (Hkept pair) as (_ & Hupdate & _).
  - intros id d [[= <- <-]|[[= <- <-]|[]]]; reflexivity.
  - apply Hupdate.
Defined.

(** The world refuses the snapshot without Ann, and Ann is gone from the
    map all the same. *)
Lemma delete_not_restored_witness :
  exists db',
    delete "0000000000000000" pair = (false, db') /\
    data db' = JsMap.delete (data pair) "0000000000000000" /\
    JsMap.has (data db') "0000000000000000" = false /\
    findById "0000000000000000" db' = None.
Proof.
  apply (delete_not_restored "0000000000000000" pair);
    reflexivity.
Defined.

(** The constructor leaves out the stored entry that fails validation. *)
Example load_drops_invalid_entry :
  construct "people" mixedWorld userValidators 0 =
  Normal {| collectionName := "people"; storageType := mixedWorld;
            collectionValidators := userValidators;
            data := [("0000000000000000", user "Ann" 20)]; drawn := 0 |}.
Proof. reflexivity. Qed.


(** NaN is exported as [null] and a [Date] as a string: the imported
    document differs from the original in both fields. *)
Example export_import_rewrites_NaN_and_dates :
  export dated =
    Snapshot [("00000000000000a1",
               <["born" := JStr "2026-11-03T12:00:00.000Z"]>
                 (<["age" := JNull]> {["name" := JStr "Ann"]}))] /\
  data (snd (import (export dated) (fresh "copy" emptyWorld None 0))) =
    [("00000000000000a1",
      <["born" := VStr "2026-11-03T12:00:00.000Z"]>
        (<["age" := VNull]> {["name" := VStr "Ann"]}))] /\
  data (snd (import (export dated) (fresh "copy" emptyWorld None 0))) <> data dated.
Proof.
  split; [vm_compute; reflexivity|].
  split; [apply (bool_decide_unpack _); vm_compute; reflexivity|].
  apply (bool_decide_eq_false_1 _). vm_compute. reflexivity.
Qed.


(** The same with a guest whose age is NaN, which is not equal to
    itself. *)
Example query_sort_reverses_around_NaN :
  compareEntries (runtime := twice) [("age", desc)]
                 (<["age" := VNaN]> {["name" := VStr "Dot"]})
                 (<["age" := VNaN]> {["name" := VStr "Dot"]}) = (-1)%Z /\
  List.map id
    (query (runtime := twice) [] (Some [("age", desc)]) None
           (guests (<["age" := VNaN]> {["name" := VStr "Dot"]}) emptyWorld)) =
    ["00000000000000c1"; "00000000000000d1"; "00000000000000a1"].
Proof. split; reflexivity. Qed.

(** C7, as stated, fails: when the property is absent the constructor
    writes nothing, and the host still has no text for the collection. *)
Lemma load_of_absent_property_writes_nothing :
  getDynamicProperty emptyWorld "people" = Normal None /\
  exists db,
    construct "people" emptyWorld userValidators 0 = Normal db /\
    data db = [] /\
    getDynamicProperty (storageType db) "people" = Normal None /\
    getDynamicProperty (storageType db) "people" <> Normal (Some (JSON_stringify [])).
Proof.
  split; [reflexivity|]. eexists. split; [reflexivity|].
  cbn [data storageType]. repeat split. discriminate.
Qed.

(** The older constructor keeps the stored entry that fails validation. *)
Example legacy_load_keeps_invalid_entry :
  data (Legacy.initialize (fresh "people" mixedWorld userValidators 0)) =
  [("0000000000000000", user "Ann" 20); ("1111111111111111", user "" 30)].
Proof. reflexivity. Qed.

(** With a random source that gives the same candidate again, the older
    [create] returns the same identifier twice and the second document
    replaces the first. *)
Example legacy_create_repeats_identifier :
  let db0 := fresh "people" emptyWorld userValidators 0 in
  let (first, db1) := Legacy.create (runtime := stuck) (user "Ann" 20) db0 in
  let (second, db2) := Legacy.create (runtime := stuck) (user "Ben" 30) db1 in
  first = Normal "0000000000000000" /\
  second = Normal "0000000000000000" /\
  data db2 = [("0000000000000000", user "Ben" 30)].
Proof.
  cbv zeta.
  replace (Legacy.create (runtime := stuck) (user "Ann" 20)
             (fresh "people" emptyWorld userValidators 0))
    with (Normal "0000000000000000",
          {| collectionName := "people";
             storageType :=
               {| properties :=
                    [("people", JSON_stringify [("0000000000000000", user "Ann" 20)])];
                  capacity := 100 |};
             collectionValidators := userValidators;
             data := [("0000000000000000", user "Ann" 20)];
             drawn := 16 |}) by reflexivity.
  repeat split.
Qed.

(** With that source [generateId] of [src/index.ts] goes on for ever once
    the candidate is a key. *)
Example generateId_stuck fuel :
  generateId (runtime := stuck) fuel
    {| collectionName := "people"; storageType := emptyWorld;
       collectionValidators := None;
       data := [("0000000000000000", user "Ann" 20)]; drawn := 16 |} = None.
Proof.
  generalize 16. induction fuel as [|fuel IH]; intros position; [reflexivity|].
  cbn [generateId]. cbn [data withDrawn drawn]. apply IH.
Qed.

(** * Further properties of the class *)

Section MoreMapFacts.
Context {V : Type}.
Implicit Types (m : list (string * V)) (k : string) (v : V).

Lemma get_set_other m k v key : key <> k -> JsMap.get (JsMap.set m k v) key = JsMap.get m key.
Proof.
  intros Hne. induction m as [|[k0 v0] m IH]; cbn [JsMap.set JsMap.get].
  - destruct (String.eqb k key) eqn:E; [|reflexivity].
    apply String.eqb_eq in E. congruence.
  - destruct (String.eqb k0 k) eqn:E; cbn [JsMap.get].
    + apply String.eqb_eq in E. subst k0.
      destruct (String.eqb k key) eqn:E'; [|reflexivity].
      apply String.eqb_eq in E'. congruence.
    + now rewrite IH.
Qed.

Lemma get_delete_other m k key : key <> k -> JsMap.get (JsMap.delete m k) key = JsMap.get m key.
Proof.
  intros Hne. induction m as [|[k0 v0] m IH]; cbn [JsMap.delete JsMap.get]; [reflexivity|].
  destruct (String.eqb k0 k) eqn:E; cbn [JsMap.get].
  - apply String.eqb_eq in E. subst k0. rewrite IH.
    destruct (String.eqb k key) eqn:E'; [|reflexivity].
    apply String.eqb_eq in E'. congruence.
  - now rewrite IH.
Qed.

Lemma has_delete_other m k key : key <> k -> JsMap.has (JsMap.delete m k) key = JsMap.has m key.
Proof. intros Hne. unfold JsMap.has. now rewrite get_delete_other. Qed.

Lemma get_app_one m k v key :
  JsMap.get (m ++ [(k, v)]) key =
  match JsMap.get m key with
  | Some w => Some w
  | None => if String.eqb k key then Some v else None
  end.
Proof.
  induction m as [|[k0 v0] m IH]; cbn [app JsMap.get]; [reflexivity|].
  destruct (String.eqb k0 key); [reflexivity|exact IH].
Qed.

Lemma length_set_absent m k v :
  JsMap.has m k = false -> List.length (JsMap.set m k v) = S (List.length m).
Proof. intros Hnew. rewrite set_absent by exact Hnew. rewrite length_app. cbn. lia. Qed.

Lemma get_In_unique m k v : JsMap.uniqueKeys m -> In (k, v) m -> JsMap.get m k = Some v.
Proof.
  unfold JsMap.uniqueKeys. induction m as [|[k0 v0] m IH]; cbn [List.map fst]; [intros _ []|].
  intros Huniq Hin. apply NoDup_cons in Huniq as [Hk0 Huniq]. cbn [JsMap.get].
  destruct Hin as [[= -> ->]|Hin].
  - now rewrite String.eqb_refl.
  - destruct (String.eqb k0 k) eqn:E; [|now apply IH].
    apply String.eqb_eq in E. subst k0. exfalso. apply Hk0.
    apply list_elem_of_In, in_map_iff. now exists (k, v).
Qed.

End MoreMapFacts.

Section WriteProperties.
Context `{runtime : Runtime} `{host : Host StorageType}.

Implicit Types (db acc : Database StorageType) (d : doc) (id : string).

(** X1. For a document that passes validation, when the host takes the
    snapshot, [create] returns the first candidate that is not a key, the
    document is the last entry of the map under that identifier,
    [findById] finds it, [size] has grown by one, the host was given the
    snapshot of the new map, and the documents that were there are found
    as before. *)
Theorem create_stores_document fuel d db k :
  validate db d = true ->
  (forall j, j < k -> JsMap.has (data db) (candidate db j) = true) ->
  JsMap.has (data db) (candidate db k) = false ->
  k < fuel ->
  accepts db (JsMap.set (data db) (candidate db k) d) = true ->
  exists db',
    create fuel d db = Some (Normal (Some (candidate db k)), db') /\
    data db' = data db ++ [(candidate db k, d)] /\
    findById (candidate db k) db' = Some (Found (candidate db k) d) /\
    size db' = (size db + 1)%Z /\
    storageType db' =
      snd (setDynamicProperty (storageType db) (collectionName db)
             (JSON_stringify (data db ++ [(candidate db k, d)]))) /\
    forall id', JsMap.has (data db) id' = true -> findById id' db' = findById id' db.
Proof.
  intros Hvalid Hbefore Hfresh Hfuel Htaken. unfold create.
  rewrite Hvalid, (generateId_returns fuel db k Hbefore Hfresh Hfuel).
  cbn [negb data withDrawn].
  set (db2 := withData (withDrawn db (drawn db + 16 * S k))
                       (JsMap.set (data db) (candidate db k) d)).
  pose proof (saveChanges_accepts db2) as Hres.
  pose proof (saveChanges_snd db2) as Hsnd.
  destruct (saveChanges db2) as [saved db3]. cbn [fst snd] in Hres, Hsnd.
  subst db3. unfold db2 in Hres at 1 2.
  cbn [data withData] in Hres. rewrite accepts_withData, accepts_withDrawn, Htaken in Hres.
  subst saved. cbn [negb]. eexists. split; [reflexivity|].
  unfold db2. cbn [data storageType collectionName withStorage withData withDrawn].
  rewrite (set_absent _ _ d Hfresh).
  split; [reflexivity|]. split; [|split; [|split; [reflexivity|]]].
  - unfold findById. cbn [data withStorage withData].
    rewrite get_app_one. apply has_get_None in Hfresh. now rewrite Hfresh, String.eqb_refl.
  - unfold size, JsMap.size. cbn [data withStorage withData].
    rewrite length_app. cbn [List.length]. lia.
  - intros id' Hthere. unfold findById. cbn [data withStorage withData].
    rewrite get_app_one. apply has_get_Some in Hthere as [w Hw]. now rewrite Hw.
Qed.

(** X2. On an identifier that is not a key, [update] and [delete] return
    [false] and [findById] finds nothing; the collection and the host are
    as before. *)
Theorem missing_identifier_is_left_alone id (patch : doc) db :
  JsMap.has (data db) id = false ->
  update id patch db = (Normal false, db) /\
  delete id db = (false, db) /\
  findById id db = None.
Proof.
  intros Hmissing. unfold update, delete, findById. rewrite Hmissing.
  apply has_get_None in Hmissing. now rewrite Hmissing.
Qed.

(** X3. Whatever [update] does, return, throw or roll back, the
    identifiers of the collection and their order are as before, and so
    are the documents of the other identifiers. *)
Theorem update_keeps_identifiers id (patch : doc) db :
  List.map fst (data (snd (update id patch db))) = List.map fst (data db) /\
  forall id', id' <> id ->
    JsMap.get (data (snd (update id patch db))) id' = JsMap.get (data db) id'.
Proof.
  unfold update. destruct (JsMap.get (data db) id) as [existing|] eqn:Hget;
    [|split; reflexivity].
  destruct (validate db (spread existing patch)); cbn [negb]; [|split; reflexivity].
  set (db1 := withData db (JsMap.set (data db) id (spread existing patch))).
  pose proof (saveChanges_data db1) as Hdata.
  destruct (saveChanges db1) as [saved db2]. cbn [snd] in Hdata.
  unfold db1 in Hdata. cbn [data withData] in Hdata.
  assert (Hhas : JsMap.has (data db) id = true) by (apply has_get_Some; eauto).
  destruct saved; cbn [snd data withData]; rewrite Hdata.
  - rewrite keys_set, Hhas. split; [reflexivity|].
    intros id' Hne. now apply get_set_other.
  - rewrite set_set_former by exact Hget. split; reflexivity.
Qed.

(** X4. For a present identifier, a merged document that passes validation
    and a host that takes the snapshot, [update] returns [true] and
    [findById] finds the merged document: a field the patch names has the
    value of the patch, also when that value is [undefined], and every
    other field has the value it had. *)
Theorem update_applies_patch id (patch existing : doc) db :
  JsMap.get (data db) id = Some existing ->
  validate db (spread existing patch) = true ->
  accepts db (JsMap.set (data db) id (spread existing patch)) = true ->
  exists db' merged,
    update id patch db = (Normal true, db') /\
    findById id db' = Some (Found id merged) /\
    (forall key v, patch !! key = Some v -> prop merged key = v) /\
    (forall key, patch !! key = None -> prop merged key = prop existing key) /\
    storageType db' =
      snd (setDynamicProperty (storageType db) (collectionName db)
             (JSON_stringify (JsMap.set (data db) id merged))).
Proof.
  intros Hget Hvalid Htaken. unfold update. rewrite Hget, Hvalid. cbn [negb].
  set (db1 := withData db (JsMap.set (data db) id (spread existing patch))).
  pose proof (saveChanges_accepts db1) as Hres.
  pose proof (saveChanges_snd db1) as Hsnd.
  destruct (saveChanges db1) as [saved db2]. cbn [fst snd] in Hres, Hsnd. subst db2.
  unfold db1 in Hres at 1 2. cbn [data withData] in Hres.
  rewrite accepts_withData, Htaken in Hres. subst saved.
  exists (withStorage db1
            (snd (setDynamicProperty (storageType db1) (collectionName db1)
                    (JSON_stringify (data db1))))), (spread existing patch).
  split; [reflexivity|]. split; [|split; [|split; [|reflexivity]]].
  - unfold findById, db1. cbn [data withStorage withData]. now rewrite get_set_same.
  - intros key v Hkey. now rewrite prop_spread, Hkey.
  - intros key Hkey. now rewrite prop_spread, Hkey.
Qed.

Lemma delete_data id db : data (snd (delete id db)) = JsMap.delete (data db) id.
Proof.
  unfold delete. destruct (JsMap.has (data db) id) eqn:Hhas; cbn [negb snd].
  - pose proof (saveChanges_data (withData db (JsMap.delete (data db) id))) as Hdata.
    destruct (saveChanges _) as [saved db']. cbn [snd data withData] in Hdata.
    now destruct saved.
  - symmetry. now apply delete_absent.
Qed.

(** X5. [delete] returns [true] exactly when the identifier was a key and
    the host took the snapshot without it. Whatever it returns, the
    identifier is not a key afterwards, and the other entries are
    untouched. *)
Theorem delete_removes_only_that_identifier id db :
  fst (delete id db) =
    JsMap.has (data db) id && accepts db (JsMap.delete (data db) id) /\
  JsMap.has (data (snd (delete id db))) id = false /\
  findById id (snd (delete id db)) = None /\
  forall id', id' <> id ->
    JsMap.get (data (snd (delete id db))) id' = JsMap.get (data db) id'.
Proof.
  split; [|split; [|split]].
  - unfold delete. destruct (JsMap.has (data db) id); cbn [negb andb fst]; [|reflexivity].
    pose proof (saveChanges_accepts (withData db (JsMap.delete (data db) id))) as Hres.
    destruct (saveChanges _) as [saved db']. cbn [fst data withData] in Hres.
    rewrite accepts_withData in Hres. now destruct saved.
  - rewrite delete_data. apply has_delete.
  - unfold findById. rewrite delete_data.
    pose proof (has_delete (data db) id) as Hgone. apply has_get_None in Hgone.
    now rewrite Hgone.
  - intros id' Hne. rewrite delete_data. now apply get_delete_other.
Qed.

Lemma deleteMany_snd id ids db :
  snd (deleteMany (id :: ids) db) = snd (deleteMany ids (snd (delete id db))) /\
  fst (deleteMany (id :: ids) db) =
    fst (delete id db) :: fst (deleteMany ids (snd (delete id db))).
Proof.
  cbn [deleteMany]. destruct (delete id db) as [result db']. cbn [snd fst].
  destruct (deleteMany ids db') as [results db'']. split; reflexivity.
Qed.

(** X6. [deleteMany] returns one result for each identifier given. After
    it none of these identifiers is a key, whatever the host answered, and
    the entries of the other identifiers are untouched. *)
Theorem deleteMany_removes_all ids db :
  List.length (fst (deleteMany ids db)) = List.length ids /\
  (forall id, In id ids -> JsMap.has (data (snd (deleteMany ids db))) id = false) /\
  forall id', ~ In id' ids ->
    JsMap.get (data (snd (deleteMany ids db))) id' = JsMap.get (data db) id'.
Proof.
  revert db. induction ids as [|id ids IH]; intros db.
  - split; [reflexivity|]. split; [intros id []|reflexivity].
  - destruct (deleteMany_snd id ids db) as [-> ->].
    destruct (IH (snd (delete id db))) as (Hlen & Hgone & Hother).
    split; [cbn [List.length]; now rewrite Hlen|]. split.
    + intros id' Hin. destruct (in_dec string_dec id' ids) as [Hin'|Hout]; [auto|].
      destruct Hin as [<-|Hin]; [|contradiction].
      unfold JsMap.has. rewrite (Hother id Hout), delete_data.
      pose proof (has_delete (data db) id) as Hgone'.
      apply has_get_None in Hgone'. now rewrite Hgone'.
    + intros id' Hout. rewrite Hother by (intros Hin; apply Hout; now right).
      rewrite delete_data. apply get_delete_other. intros ->. apply Hout. now left.
Qed.

(** X7. [clear] empties the collection whatever the host answers and
    returns whether the host took the empty snapshot: after a refused
    save the collection is empty all the same, [count()] is 0 and
    [findMany()] returns nothing. *)
Theorem clear_empties_whatever_the_host_answers db :
  fst (clear db) = accepts db [] /\
  data (snd (clear db)) = [] /\
  count None (snd (clear db)) = 0%Z /\
  findMany None (snd (clear db)) = [] /\
  storageType (snd (clear db)) =
    snd (setDynamicProperty (storageType db) (collectionName db) (JSON_stringify [])).
Proof.
  unfold clear. rewrite saveChanges_accepts, saveChanges_snd.
  unfold count, size, JsMap.size, findMany. cbn [data withData withStorage storageType].
  repeat split.
Qed.

End WriteProperties.

(** ** Reading *)


Section ReadProperties.
Context `{runtime : Runtime} `{host : Host StorageType}.

Implicit Types (db acc : Database StorageType) (d : doc) (id : string).

Lemma head_filter_first {A : Type} (p : A -> bool) (l : list A) :
  match head (List.filter p l) with
  | Some x =>
      p x = true /\
      exists before after, l = before ++ x :: after /\ forall y, In y before -> p y = false
  | None => forall y, In y l -> p y = false
  end.
Proof.
  induction l as [|y l IH]; cbn [List.filter]; [intros y []|].
  destruct (p y) eqn:Hy; cbn [head].
  - split; [exact Hy|]. exists [], l. split; [reflexivity|]. intros z [].
  - destruct (head (List.filter p l)) as [x|].
    + destruct IH as (Hx & before & after & -> & Hbefore). split; [exact Hx|].
      exists (y :: before), after. split; [reflexivity|].
      intros z [<-|Hz]; auto.
    + intros z [<-|Hz]; auto.
Qed.

(** X8. [findOne] returns the first entry in the order of the collection
    whose document satisfies the predicate, no entry before it does, and
    it returns [undefined] exactly when no document satisfies it. *)
Theorem findOne_first_match (p : doc -> bool) db :
  match findOne p db with
  | Some r =>
      p (fdata r) = true /\
      exists before after,
        data db = before ++ (id r, fdata r) :: after /\
        forall e, In e before -> p (snd e) = false
  | None => forall e, In e (data db) -> p (snd e) = false
  end.
Proof.
  unfold findOne, findMany.
  pose proof (head_filter_first (fun e => p (snd e)) (data db)) as Hfirst.
  destruct (List.filter (fun e => p (snd e)) (data db)) as [|[id0 d0] rest];
    cbn [head List.map fst snd id fdata] in *; exact Hfirst.
Qed.

(** X9. In a collection with unique keys, [findById] finds a document
    under an identifier exactly when the pair is an entry of the
    collection. *)
Theorem findById_finds_entries key d db :
  JsMap.uniqueKeys (data db) ->
  (findById key db = Some (Found key d) <-> In (key, d) (data db)).
Proof.
  intros Huniq. unfold findById. split.
  - destruct (JsMap.get (data db) key) as [d'|] eqn:Hget; [|discriminate].
    intros [= ->]. now apply get_In.
  - intros Hin. now rewrite (get_In_unique _ _ _ Huniq Hin).
Qed.

End ReadProperties.

Section SearchProperties.
Context `{runtime : Runtime} `{host : Host StorageType}.

Implicit Types (db acc : Database StorageType) (d : doc) (key f : string).

Lemma findLike_In term fields key d db :
  In (Found key d) (findLike term fields db) <->
  In (key, d) (data db) /\
  existsb (fun f => includes (toLowerCase (toString (prop d f))) (toLowerCase term))
          (match fields with Some fs => fs | None => keys d end) = true.
Proof.
  unfold findLike, tryString. rewrite in_map_iff. split.
  - intros [[key' d'] [[= -> ->] Hin]]. apply filter_In in Hin. exact Hin.
  - intros Hin. exists (key, d). split; [reflexivity|]. apply filter_In. exact Hin.
Qed.

Lemma keys_In d f : In f (keys d) <-> d !! f <> None.
Proof.
  unfold keys. rewrite in_map_iff. split.
  - intros [[f' v] [<- Hin]]. apply list_elem_of_In, elem_of_map_to_list in Hin.
    cbn [fst]. congruence.
  - intros Hsome. destruct (d !! f) as [v|] eqn:Hlookup; [|congruence].
    exists (f, v). split; [reflexivity|]. now apply list_elem_of_In, elem_of_map_to_list.
Qed.

(** X10. [findLike] finds every document one of whose searched fields,
    written as a string of ASCII characters, contains the term, of ASCII
    characters too, as it is; the searched fields are those given or,
    when none are given, the fields of the document. *)
Theorem findLike_finds_literal_match term fields key d f db :
  In (key, d) (data db) ->
  (fields = None /\ d !! f <> None) \/ (exists fs, fields = Some fs /\ In f fs) ->
  allChars isAscii term = true ->
  allChars isAscii (toString (prop d f)) = true ->
  includes (toString (prop d f)) term = true ->
  In (Found key d) (findLike term fields db).
Proof.
  intros Hin Hsearched Hterm Hfield Hcontains. apply findLike_In. split; [exact Hin|].
  apply existsb_exists. exists f. split.
  - destruct Hsearched as [[-> Hfield']|(fs & -> & Hfs)]; [now apply keys_In|exact Hfs].
  - rewrite (toLowerCase_ascii term Hterm), (toLowerCase_ascii _ Hfield).
    now apply includes_lowerAsciiString.
Qed.


(** *** Conditions *)

Lemma numberLessThan_NaN_r (x : number) : numberLessThan x NaN = None.
Proof. now destruct x. Qed.



Lemma strictEquals_NaN_r (v : value) : strictEquals v VNaN = false.
Proof.
  destruct v; try reflexivity; unfold strictEquals;
    now rewrite bool_decide_eq_false_2 by discriminate.
Qed.

Lemma IsLessThan_NaN_l (v : value) : IsLessThan VNaN v = None.
Proof. reflexivity. Qed.

Lemma IsLessThan_NaN_r (v : value) : IsLessThan v VNaN = None.
Proof.
  unfold IsLessThan. cbn [stringOperand ToNumber].
  rewrite numberLessThan_NaN_r. now destruct (stringOperand v).
Qed.


(** X13. When the field and the value of the condition are two numbers
    other than NaN, or two strings, the six comparisons are those of a
    linear order: [<=] is the negation of [>], [>=] the negation of [<],
    [!=] the negation of [==], [<=] is [<] or [==], [>=] is [>] or [==],
    and [<] and [>] do not hold together; integers are compared as
    integers. When one of the two is NaN, [<], [>], [<=], [>=] and [==]
    all fail and [!=] holds: [<=] is not the negation of [>] there. *)
Theorem comparisons_on_same_kind d f (b : value) :
  let holds op := evaluateCondition d {| field := f; operator := op; cvalue := b |} in
  ((isNumber (prop d f) = true /\ isNumber b = true) \/
   (isString (prop d f) = true /\ isString b = true) ->
   holds OpLe = negb (holds OpGt) /\
   holds OpGe = negb (holds OpLt) /\
   holds OpNe = negb (holds OpEq) /\
   holds OpLe = holds OpLt || holds OpEq /\
   holds OpGe = holds OpGt || holds OpEq /\
   holds OpLt && holds OpGt = false /\
   (forall x y, prop d f = VNum x -> b = VNum y ->
                holds OpLt = (x <? y)%Z /\ holds OpEq = (x =? y)%Z)) /\
  (prop d f = VNaN \/ b = VNaN ->
   holds OpLt = false /\ holds OpGt = false /\ holds OpLe = false /\
   holds OpGe = false /\ holds OpEq = false /\ holds OpNe = true).
Proof.
  intros holds. subst holds. unfold evaluateCondition. cbn [field operator cvalue].
  unfold greaterThan, lessThan, greaterOrEqual, lessOrEqual. split.
  - intros [[Ha Hb]|[Ha Hb]].
    + destruct (prop d f) as [| | |x| |na| |]; try discriminate;
        destruct b as [| | |y| |nb| |]; try discriminate;
        unfold strictEquals, IsLessThan; cbn [stringOperand ToNumber numberLessThan].
      * assert (Heq : bool_decide (VNum x = VNum y) = (x =? y)%Z).
        { destruct (Z.eqb_spec x y) as [->|Hne].
          - now apply bool_decide_eq_true.
          - apply bool_decide_eq_false. congruence. }
        rewrite Heq. repeat split; try lia; intros; simplify_eq; reflexivity.
      * rewrite bool_decide_eq_false_2 by congruence.
        destruct nb; repeat split; try reflexivity; intros; simplify_eq.
      * rewrite bool_decide_eq_false_2 by congruence.
        destruct na; repeat split; try reflexivity; intros; simplify_eq.
      * destruct na, nb; repeat split; try reflexivity; intros; simplify_eq.
    + destruct (prop d f) as [| | | | | |x|]; try discriminate;
        destruct b as [| | | | | |y|]; try discriminate.
      unfold strictEquals, IsLessThan; cbn [stringOperand].
      assert (Heq : bool_decide (VStr x = VStr y) = bool_decide (x = y)).
      { destruct (decide (x = y)) as [->|Hne].
        - rewrite !bool_decide_eq_true_2; reflexivity.
        - rewrite !bool_decide_eq_false_2; congruence. }
      rewrite Heq.
      destruct (string_order x y) as [(-> & Hne & ->)|[(-> & -> & _)|(-> & Hne & ->)]];
        rewrite ?ltb_irrefl;
        try (rewrite (bool_decide_eq_false_2 _ Hne));
        try (rewrite (bool_decide_eq_true_2 (y = y) eq_refl));
        repeat split; try reflexivity; intros; simplify_eq.
  - intros [->| ->].
    + rewrite IsLessThan_NaN_l, IsLessThan_NaN_r. repeat split.
    + rewrite IsLessThan_NaN_l, IsLessThan_NaN_r, strictEquals_NaN_r. repeat split.
Qed.

(** X14. A condition with [startsWith] or [endsWith] that holds, holds
    with [contains] too, and when [==] holds the three of them hold. *)
Theorem string_conditions_imply_contains d f (v : value) :
  let holds op := evaluateCondition d {| field := f; operator := op; cvalue := v |} in
  (holds OpStartsWith = true -> holds OpContains = true) /\
  (holds OpEndsWith = true -> holds OpContains = true) /\
  (holds OpEq = true ->
   holds OpContains = true /\ holds OpStartsWith = true /\ holds OpEndsWith = true).
Proof.
  intros holds. subst holds. unfold evaluateCondition. cbn [field operator cvalue].
  split; [|split].
  - unfold startsWith. apply includes_prefix.
  - unfold endsWith. intros Hends. apply andb_prop in Hends as [_ Hsub].
    apply String.eqb_eq in Hsub. eapply includes_substring. exact Hsub.
  - intros Heq. apply strictEquals_true in Heq. rewrite Heq.
    set (s := toLowerCase (toString v)). split; [|split].
    + apply includes_prefix, prefix_refl.
    + apply prefix_refl.
    + unfold endsWith. rewrite Nat.leb_refl, Nat.sub_diag, substring_all.
      apply String.eqb_refl.
Qed.

(** *** Counting and limits *)

(** X15. [count()] is the number of results of [query([])], and [count(c)]
    the number of results of [query([c])], with any sort or none. *)
Theorem count_is_length_of_query (sortEntries : option SortOptions) db :
  count None db = Z.of_nat (List.length (query [] sortEntries None db)) /\
  forall c, count (Some c) db = Z.of_nat (List.length (query [c] sortEntries None db)).
Proof.
  assert (Hlength : forall conditions,
             List.length (query conditions sortEntries None db) =
             List.length (matching conditions db)).
  { intros conditions. unfold query. rewrite length_map.
    destruct sortEntries as [s|]; [|reflexivity].
    apply Permutation_length, sort_Permutation. }
  split.
  - rewrite Hlength, matching_nil. reflexivity.
  - intros c. rewrite Hlength. unfold count. rewrite length_filter_values.
    unfold matching. do 2 f_equal. apply filter_ext. intros e. cbn [forallb].
    now rewrite andb_true_r.
Qed.

(** X16. With a limit that is not negative, [query] returns the first
    results of the query without limit: a prefix of them, of the length
    of the limit when there are as many, and all of them otherwise; a
    limit of 0 gives nothing. *)
Theorem query_limit_takes_prefix conditions sortEntries (limit : Z) db :
  (0 <= limit)%Z ->
  (exists rest,
      query conditions sortEntries None db =
      query conditions sortEntries (Some limit) db ++ rest) /\
  List.length (query conditions sortEntries (Some limit) db) =
    Nat.min (Z.to_nat limit) (List.length (query conditions sortEntries None db)) /\
  query conditions sortEntries (Some 0%Z) db = [].
Proof.
  intros Hlimit.
  assert (Hfirst : forall n, (0 <= n)%Z ->
             query conditions sortEntries (Some n) db =
             firstn (Z.to_nat n) (query conditions sortEntries None db)).
  { intros n Hn. unfold query. rewrite slice_first by exact Hn. now rewrite firstn_map. }
  split; [|split].
  - exists (skipn (Z.to_nat limit) (query conditions sortEntries None db)).
    rewrite Hfirst by exact Hlimit. symmetry. apply firstn_skipn.
  - rewrite Hfirst by exact Hlimit. apply length_firstn.
  - rewrite Hfirst by lia. reflexivity.
Qed.

End SearchProperties.

(** ** Loading, importing and the bulk operations *)

Section LoadProperties.
Context `{runtime : Runtime} `{host : Host StorageType}.

Implicit Types (db acc : Database StorageType) (d : doc) (key : string).

Lemma withData_data acc : withData acc (data acc) = acc.
Proof. now destruct acc. Qed.


Lemma uniqueKeys_app_new (m : list (string * doc)) key d rest :
  JsMap.uniqueKeys (m ++ (key, d) :: rest) -> JsMap.has m key = false.
Proof.
  unfold JsMap.uniqueKeys. rewrite List.map_app. intros Huniq.
  apply NoDup_app in Huniq as (_ & Hdisjoint & _).
  destruct (JsMap.has m key) eqn:E; [|reflexivity].
  apply has_In in E. exfalso. apply (Hdisjoint key).
  - now apply list_elem_of_In.
  - apply list_elem_of_In. now left.
Qed.

(** The loop of [initialize] appends the entries that pass [validate]
    when their keys are new and distinct. *)
Lemma initialize_loop_data (entries : list (string * doc)) acc :
  JsMap.uniqueKeys (data acc ++ List.filter (fun e => validate acc (snd e)) entries) ->
  fold_left (fun acc e =>
               if validate acc (snd e)
               then withData acc (JsMap.set (data acc) (fst e) (snd e))
               else acc)
            entries acc =
  withData acc (data acc ++ List.filter (fun e => validate acc (snd e)) entries).
Proof.
  revert acc. induction entries as [|[key d] entries IH]; intros acc Huniq.
  - cbn [fold_left List.filter]. now rewrite app_nil_r, withData_data.
  - cbn [fold_left List.filter fst snd] in *. destruct (validate acc d) eqn:Hvalid.
    + pose proof (uniqueKeys_app_new _ _ _ _ Huniq) as Hnew.
      rewrite (set_absent _ _ d Hnew). rewrite IH.
      * cbn [data withData]. unfold withData. cbn [collectionName storageType
          collectionValidators drawn]. now rewrite <- app_assoc.
      * cbn [data withData]. now rewrite <- app_assoc.
    + now apply IH.
Qed.

Lemma name_accepted (name : string) :
  (1 <= String.length name)%nat -> (String.length name <= 16)%nat ->
  (String.length name <? 1)%nat || (16 <? String.length name)%nat = false.
Proof. intros Hmin Hmax. apply orb_false_iff. split; apply Nat.ltb_ge; lia. Qed.


(** X18. What a collection saves loads back: on a host that holds the
    text [export] gives for a collection whose documents pass validation
    and hold in every field [null], a boolean, an integer or a string, a
    new [Database] with the same name and validators has the same
    entries in the same order. *)
Theorem saved_snapshot_loads_back db st position :
  (1 <= String.length (collectionName db))%nat ->
  (String.length (collectionName db) <= 16)%nat ->
  getDynamicProperty st (collectionName db) = Normal (Some (export db)) ->
  JsMap.uniqueKeys (data db) ->
  allValid db ->
  (forall key d, In (key, d) (data db) -> representable d = true) ->
  construct (collectionName db) st (collectionValidators db) position =
  Normal {| collectionName := collectionName db; storageType := st;
            collectionValidators := collectionValidators db;
            data := data db; drawn := position |}.
Proof.
  intros Hmin Hmax Hstored Huniq Hvalid Hrepr. unfold construct.
  rewrite (name_accepted _ Hmin Hmax).
  set (db0 := {| collectionName := collectionName db; storageType := st;
                 collectionValidators := collectionValidators db; data := [];
                 drawn := position |}).
  unfold initialize. cbn [storageType collectionName db0]. rewrite Hstored.
  unfold export. cbn [truthy JSON_stringify]. fold (JSON_stringify (data db)).
  rewrite parse_stringify by exact Hrepr.
  assert (Hall : List.filter (fun e => validate db0 (snd e)) (data db) = data db).
  { apply filter_all. intros [key d] Hin. exact (Hvalid key d Hin). }
  rewrite initialize_loop_data; rewrite Hall; [reflexivity|exact Huniq].
Qed.


End LoadProperties.

Section BulkProperties.
Context `{runtime : Runtime} `{host : Host StorageType}.

Implicit Types (db acc : Database StorageType) (d : doc) (key : string).

Lemma evolves_trans db db1 (m : list (string * doc)) :
  evolves db (data db1) ->
  collectionValidators db1 = collectionValidators db ->
  evolves db1 m -> evolves db m.
Proof.
  intros Hfirst Hval Hsecond.
  induction Hsecond as [| |m key d Hsecond IH Hd|m key Hsecond IH].
  - exact Hfirst.
  - apply evolves_clear.
  - apply evolves_set; [exact IH|]. now rewrite <- (validate_same_validators db db1).
  - now apply evolves_delete.
Qed.

Lemma createMany_evolves fuel items db outcome db' :
  createMany fuel items db = Some (outcome, db') ->
  evolves db (data db') /\ collectionValidators db' = collectionValidators db.
Proof.
  revert db outcome db'. induction items as [|item rest IH]; intros db outcome db'.
  - intros [= <- <-]. split; [apply evolves_same|reflexivity].
  - cbn [createMany].
    destruct (create fuel item db) as [[[result|e] db1]|] eqn:Hcreate; [| |discriminate].
    + apply create_evolves in Hcreate as [Hev Hval].
      destruct (createMany fuel rest db1) as [[[results|e] db2]|] eqn:Hrest;
        [| |discriminate]; intros [= <- <-];
        destruct (IH _ _ _ Hrest) as [Hev2 Hval2];
        (split; [eapply evolves_trans; eassumption|congruence]).
    + intros [= <- <-]. now apply create_evolves in Hcreate.
Qed.

Lemma updateMany_evolves updates db :
  evolves db (data (snd (updateMany updates db))) /\
  collectionValidators (snd (updateMany updates db)) = collectionValidators db.
Proof.
  revert db. induction updates as [|[key patch] rest IH]; intros db.
  - split; [apply evolves_same|reflexivity].
  - cbn [updateMany]. pose proof (update_evolves key patch db) as [Hev Hval].
    destruct (update key patch db) as [[result|e] db1]; cbn [snd] in Hev, Hval;
      [|split; assumption].
    destruct (IH db1) as [Hev2 Hval2].
    destruct (updateMany rest db1) as [[results|e] db2]; cbn [snd] in *;
      (split; [eapply evolves_trans; eassumption|congruence]).
Qed.

Lemma deleteMany_evolves ids db :
  evolves db (data (snd (deleteMany ids db))) /\
  collectionValidators (snd (deleteMany ids db)) = collectionValidators db.
Proof.
  revert db. induction ids as [|key rest IH]; intros db.
  - split; [apply evolves_same|reflexivity].
  - destruct (deleteMany_snd key rest db) as [-> _].
    destruct (delete_evolves key db) as [Hev Hval].
    destruct (IH (snd (delete key db))) as [Hev2 Hval2].
    split; [eapply evolves_trans; eassumption|congruence].
Qed.

(** X20. [createMany], [updateMany] and [deleteMany] keep the documents of
    the collection valid and its keys unique, whether they return or
    throw. *)
Theorem bulk_operations_keep_invariants db :
  allValid db ->
  JsMap.uniqueKeys (data db) ->
  (forall fuel items outcome db',
      createMany fuel items db = Some (outcome, db') ->
      allValid db' /\ JsMap.uniqueKeys (data db')) /\
  (forall updates,
      allValid (snd (updateMany updates db)) /\
      JsMap.uniqueKeys (data (snd (updateMany updates db)))) /\
  (forall ids,
      allValid (snd (deleteMany ids db)) /\
      JsMap.uniqueKeys (data (snd (deleteMany ids db)))).
Proof.
  intros Hvalid Huniq. split; [|split].
  - intros fuel items outcome db' Hmany.
    apply createMany_evolves in Hmany as [Hev Hval]. split.
    + eapply allValid_evolves; eassumption.
    + eapply evolves_uniqueKeys; eassumption.
  - intros updates. destruct (updateMany_evolves updates db) as [Hev Hval]. split.
    + eapply allValid_evolves; eassumption.
    + eapply evolves_uniqueKeys; eassumption.
  - intros ids. destruct (deleteMany_evolves ids db) as [Hev Hval]. split.
    + eapply allValid_evolves; eassumption.
    + eapply evolves_uniqueKeys; eassumption.
Qed.

(** X21. [createMany] is not a transaction: at the first item that fails
    validation it throws, the items before it stay created and saved as
    their calls left them, and the items after it are not looked at. *)
Theorem createMany_stops_at_invalid_item fuel before bad after results db db1 :
  createMany fuel before db = Some (Normal results, db1) ->
  validate db bad = false ->
  createMany fuel (before ++ bad :: after) db = Some (Throw "Invalid data format", db1).
Proof.
  revert db results. induction before as [|item before IH]; intros db results.
  - intros [= _ <-] Hbad. cbn [app createMany]. unfold create. now rewrite Hbad.
  - cbn [app createMany].
    destruct (create fuel item db) as [[[result|e] dbm]|] eqn:Hcreate; try discriminate.
    destruct (createMany fuel before dbm) as [[[results'|e] db2]|] eqn:Hrest;
      try discriminate.
    intros [= _ <-] Hbad. apply create_evolves in Hcreate as [_ Hval].
    rewrite (IH dbm results' Hrest); [reflexivity|].
    now rewrite (validate_same_validators db dbm bad Hval).
Qed.

Lemma createMany_createEach fuel items db results db' :
  createMany fuel items db = Some (Normal results, db') ->
  createEach fuel items db = Some (List.map Normal results, db').
Proof.
  revert db results. induction items as [|item rest IH]; intros db results.
  - intros [= <- <-]. reflexivity.
  - cbn [createMany createEach].
    destruct (create fuel item db) as [[[result|e] db1]|]; try discriminate.
    destruct (createMany fuel rest db1) as [[[results'|e] db2]|] eqn:Hrest;
      try discriminate.
    intros [= <- <-]. now rewrite (IH db1 results' Hrest).
Qed.

Lemma create_keeps_entries fuel d db outcome db' key :
  create fuel d db = Some (outcome, db') ->
  JsMap.has (data db) key = true ->
  JsMap.get (data db') key = JsMap.get (data db) key.
Proof.
  intros Hcreate Hthere. apply create_outcome in Hcreate as [_ Hcases].
  destruct Hcases as [(e & _ & _ & ->)|[(_ & _ & ->)|(newId & _ & _ & _ & _ & _ & ->)]];
    try reflexivity.
  rewrite get_app_one. apply has_get_Some in Hthere as [w Hw]. now rewrite Hw.
Qed.

Lemma createMany_keeps_entries fuel items db outcome db' key :
  createMany fuel items db = Some (outcome, db') ->
  JsMap.has (data db) key = true ->
  JsMap.get (data db') key = JsMap.get (data db) key.
Proof.
  revert db outcome db'. induction items as [|item rest IH]; intros db outcome db'.
  - now intros [= <- <-].
  - cbn [createMany].
    destruct (create fuel item db) as [[[result|e] db1]|] eqn:Hcreate; [| |discriminate].
    + intros Hmany Hthere.
      pose proof (create_keeps_entries _ _ _ _ _ key Hcreate Hthere) as Hkept.
      assert (Hthere1 : JsMap.has (data db1) key = true).
      { unfold JsMap.has in *. now rewrite Hkept. }
      destruct (createMany fuel rest db1) as [[[results|e] db2]|] eqn:Hrest;
        [| |discriminate]; injection Hmany as <- <-;
        rewrite (IH _ _ _ Hrest Hthere1); exact Hkept.
    + intros [= <- <-] Hthere. eapply create_keeps_entries; eassumption.
Qed.

(** X22. When [createMany] returns, it returns one result for each item,
    in their order; every identifier among them finds the item it was
    returned for, and these identifiers are pairwise distinct. *)
Theorem createMany_results_find_items fuel items db results db' :
  createMany fuel items db = Some (Normal results, db') ->
  Forall2 (fun item result =>
             match result with
             | Some key => findById key db' = Some (Found key item)
             | None => True
             end) items results /\
  NoDup (identifiers (List.map Normal results)).
Proof.
  intros Hmany. split.
  - revert db results Hmany. induction items as [|item rest IH]; intros db results.
    + intros [= <-]. constructor.
    + cbn [createMany].
      destruct (create fuel item db) as [[[result|e] db1]|] eqn:Hcreate; try discriminate.
      destruct (createMany fuel rest db1) as [[[results'|e] db2]|] eqn:Hrest;
        try discriminate.
      intros [= <- <-]. constructor; [|exact (IH db1 results' Hrest)].
      destruct result as [key|]; [|exact I].
      apply create_outcome in Hcreate as [_ Hcases].
      destruct Hcases as [(e & [=] & _)|[([=] & _)|(key' & [= <-] & _ & _ & _ & Hnew & Hdata)]].
      assert (Hget : JsMap.get (data db1) key = Some item).
      { rewrite Hdata, get_app_one. apply has_get_None in Hnew.
        now rewrite Hnew, String.eqb_refl. }
      unfold findById. rewrite (createMany_keeps_entries _ _ _ _ _ key Hrest).
      * now rewrite Hget.
      * apply has_get_Some. eauto.
  - apply createMany_createEach in Hmany.
    now apply createEach_identifiers in Hmany as [Hnodup _].
Qed.

Lemma update_data_keys key (patch : doc) db :
  List.map fst (data (snd (update key patch db))) = List.map fst (data db).
Proof.
  unfold update. destruct (JsMap.get (data db) key) as [existing|] eqn:Hget;
    [|reflexivity].
  destruct (validate db (spread existing patch)); cbn [negb]; [|reflexivity].
  pose proof (saveChanges_data
                (withData db (JsMap.set (data db) key (spread existing patch)))) as Hdata.
  destruct (saveChanges _) as [saved db2]. cbn [snd data withData] in Hdata.
  assert (Hhas : JsMap.has (data db) key = true) by (apply has_get_Some; eauto).
  destruct saved; cbn [snd data withData]; rewrite Hdata.
  - now rewrite keys_set, Hhas.
  - now rewrite set_set_former.
Qed.

(** X23. [updateMany] does not add, remove or reorder identifiers, whether
    it returns or throws at an update that fails validation; an update
    for an identifier that is not a key gives [false] and the updates
    after it are still made. *)
Theorem updateMany_keeps_identifiers updates db :
  List.map fst (data (snd (updateMany updates db))) = List.map fst (data db) /\
  forall key patch rest,
    updates = (key, patch) :: rest ->
    JsMap.has (data db) key = false ->
    updateMany updates db =
    match updateMany rest db with
    | (Normal results, db') => (Normal (false :: results), db')
    | (Throw e, db') => (Throw e, db')
    end.
Proof.
  split.
  - revert db. induction updates as [|[key patch] rest IH]; intros db; [reflexivity|].
    cbn [updateMany]. pose proof (update_data_keys key patch db) as Hkeys.
    destruct (update key patch db) as [[result|e] db1]; cbn [snd] in Hkeys;
      [|exact Hkeys].
    specialize (IH db1).
    destruct (updateMany rest db1) as [[results|e] db2]; cbn [snd] in *; congruence.
  - intros key patch rest -> Hmissing. cbn [updateMany]. unfold update.
    apply has_get_None in Hmissing. now rewrite Hmissing.
Qed.

(** *** The older class *)

Lemma legacy_saveChanges_data db : data (Legacy.saveChanges db) = data db.
Proof. reflexivity. Qed.

(** X24. The older [import] clears the collection before it reads the
    text. On a text that does not parse it throws and the collection is
    left empty. At the first entry that fails validation it throws too,
    and the collection is left with the entries before that one only. *)
Theorem legacy_import_is_not_atomic (t : text) db :
  (forall e, JSON_parse t = Throw e ->
             exists db', Legacy.import t db = (Throw e, db') /\ data db' = []) /\
  (forall before bad after,
      JSON_parse t = Normal (before ++ bad :: after) ->
      (forall e, In e before -> validate db (snd e) = true) ->
      validate db (snd bad) = false ->
      JsMap.uniqueKeys before ->
      exists db',
        Legacy.import t db = (Throw "Invalid data format", db') /\ data db' = before).
Proof.
  split.
  - intros e Hparse. unfold Legacy.import. rewrite Hparse. eexists. split; reflexivity.
  - intros before bad after Hparse Hvalid Hbad Huniq. unfold Legacy.import.
    rewrite Hparse.
    assert (Hloop : forall entries db0,
               (forall e, In e entries -> validate db0 (snd e) = true) ->
               validate db0 (snd bad) = false ->
               JsMap.uniqueKeys (data db0 ++ entries) ->
               exists db',
                 Legacy.setEach (entries ++ bad :: after) db0 =
                   (Throw "Invalid data format", db') /\
                 data db' = data db0 ++ entries).
    { induction entries as [|[key d] entries IH]; intros db0 Hvalid0 Hbad0 Huniq0.
      - exists db0. cbn [app Legacy.setEach]. unfold Legacy.set. rewrite Hbad0.
        now rewrite app_nil_r.
      - cbn [app Legacy.setEach fst snd]. unfold Legacy.set.
        pose proof (Hvalid0 (key, d) (or_introl eq_refl)) as Hd. cbn [snd] in Hd.
        rewrite Hd. cbn [negb].
        pose proof (uniqueKeys_app_new _ _ _ _ Huniq0) as Hnew.
        destruct (IH (Legacy.saveChanges (withData db0 (JsMap.set (data db0) key d))))
          as (db' & Hrun & Hdata).
        + intros e Hin. apply Hvalid0. now right.
        + exact Hbad0.
        + cbn [data Legacy.saveChanges withStorage withData].
          rewrite (set_absent _ _ d Hnew), <- app_assoc. exact Huniq0.
        + exists db'. split; [exact Hrun|]. rewrite Hdata.
          cbn [data Legacy.saveChanges withStorage withData].
          now rewrite (set_absent _ _ d Hnew), <- app_assoc. }
    apply (Hloop before (Legacy.clear db)); assumption.
Qed.

(** X25. The older constructor's load does not validate: when the host
    holds a snapshot, every entry of it is in the collection afterwards,
    also one that fails the validators. *)
Theorem legacy_load_skips_validation name st validators position
    (entries : list (string * gmap string json)) :
  getDynamicProperty st name = Normal (Some (Snapshot entries)) ->
  NoDup (List.map fst entries) ->
  Legacy.initialize (fresh name st validators position) =
  withData (fresh name st validators position)
           (List.map (fun e => (fst e, ofJSON <$> snd e)) entries).
Proof.
  intros Hstored Huniq. unfold Legacy.initialize.
  cbn [storageType collectionName fresh]. fold (fresh name st validators position).
  rewrite Hstored. cbn [truthy JSON_parse].
  set (parsed := List.map (fun e => (fst e, ofJSON <$> snd e)) entries).
  assert (Hparsed : JsMap.uniqueKeys parsed).
  { unfold JsMap.uniqueKeys, parsed. rewrite List.map_map. exact Huniq. }
  assert (Hloop : forall (l : list (string * doc)) acc,
             JsMap.uniqueKeys (data acc ++ l) ->
             fold_left (fun acc e => withData acc (JsMap.set (data acc) (fst e) (snd e)))
                       l acc = withData acc (data acc ++ l)).
  { induction l as [|[key d] l IH]; intros acc Hacc.
    - cbn [fold_left]. now rewrite app_nil_r, withData_data.
    - cbn [fold_left fst snd]. pose proof (uniqueKeys_app_new _ _ _ _ Hacc) as Hnew.
      rewrite (set_absent _ _ d Hnew), IH; cbn [data withData].
      + unfold withData. cbn [collectionName storageType collectionValidators drawn].
        now rewrite <- app_assoc.
      + now rewrite <- app_assoc. }
  now rewrite Hloop.
Qed.

(** X26. The older class does not see a refused save: [set] and [update]
    of a valid document and [delete] of a present identifier report
    success and change the collection whatever the host answers. *)
Theorem legacy_writes_ignore_the_host key d (patch existing : doc) db :
  (validate db d = true ->
   exists db', Legacy.set key d db = (Normal (), db') /\
               JsMap.get (data db') key = Some d) /\
  (JsMap.get (data db) key = Some existing ->
   validate db (spread existing patch) = true ->
   exists db', Legacy.update key patch db = (Normal true, db') /\
               JsMap.get (data db') key = Some (spread existing patch)) /\
  (JsMap.has (data db) key = true ->
   exists db', Legacy.delete key db = (true, db') /\
               JsMap.has (data db') key = false).
Proof.
  split; [|split].
  - intros Hvalid. unfold Legacy.set. rewrite Hvalid. eexists. split; [reflexivity|].
    cbn [data Legacy.saveChanges withStorage withData]. apply get_set_same.
  - intros Hget Hvalid. unfold Legacy.update, Legacy.set. rewrite Hget, Hvalid.
    cbn [negb]. eexists. split; [reflexivity|].
    cbn [data Legacy.saveChanges withStorage withData]. apply get_set_same.
  - intros Hthere. unfold Legacy.delete. rewrite Hthere. eexists. split; [reflexivity|].
    cbn [data Legacy.saveChanges withStorage withData]. apply has_delete.
Qed.

End BulkProperties.

(** ** Validation and order *)

Section OrderProperties.
Context `{runtime : Runtime} `{host : Host StorageType}.

Implicit Types (db acc : Database StorageType) (d a b c : doc) (key f : string).

Lemma validate_agree db (d1 d2 : doc) :
  (forall validators key validator,
      collectionValidators db = Some validators ->
      In (key, validator) validators -> prop d1 key = prop d2 key) ->
  validate db d1 = validate db d2.
Proof.
  intros Hagree. unfold validate.
  destruct (collectionValidators db) as [validators|]; [|reflexivity].
  specialize (Hagree validators). 
  assert (Hin : forall key validator,
             In (key, validator) validators -> prop d1 key = prop d2 key)
    by (intros; eapply Hagree; [reflexivity|eassumption]).
  clear Hagree. induction validators as [|[key validator] rest IH]; [reflexivity|].
  cbn [forallb fst snd]. rewrite IH by (intros; eapply Hin; right; eassumption).
  destruct validator as [validator|]; [|reflexivity].
  now rewrite (Hin key (Some validator) (or_introl eq_refl)).
Qed.

(** X27. [validate] reads only the fields that have a validator: two
    documents with the same values in these fields validate alike. So an
    [update] whose patch names no field with a validator, on a stored
    document that passes validation, does not throw. *)
Theorem update_outside_validated_fields_does_not_throw key (patch existing : doc) db :
  JsMap.get (data db) key = Some existing ->
  validate db existing = true ->
  (forall validators name validator,
      collectionValidators db = Some validators ->
      In (name, validator) validators -> patch !! name = None) ->
  validate db (spread existing patch) = true /\
  exists result db', update key patch db = (Normal result, db').
Proof.
  intros Hget Hvalid Houtside.
  assert (Hmerged : validate db (spread existing patch) = true).
  { rewrite <- Hvalid. apply validate_agree.
    intros validators name validator Hval Hin.
    now rewrite prop_spread, (Houtside validators name validator Hval Hin). }
  split; [exact Hmerged|]. unfold update. rewrite Hget, Hmerged. cbn [negb].
  destruct (saveChanges _) as [[|] db2]; eauto.
Qed.

(** *** The order of the results *)

Lemma compareEntries_numbers f direction rest a b (x y : Z) :
  prop a f = VNum x -> prop b f = VNum y ->
  compareEntries ((f, direction) :: rest) a b =
  if (x =? y)%Z then compareEntries rest a b
  else match direction with
       | asc => if (x <? y)%Z then (-1)%Z else 1%Z
       | desc => (- (if (x <? y)%Z then (-1)%Z else 1%Z))%Z
       end.
Proof.
  intros Ha Hb. rewrite compareEntries_cons, Ha, Hb, compareValues_integers.
  destruct (Z.eqb_spec x y) as [->|Hne]; [reflexivity|].
  now destruct (x <? y)%Z, direction.
Qed.

Lemma StronglySorted_map_found (R : found -> found -> Prop) (l : list (string * doc)) :
  StronglySorted (fun x y => R (Found (fst x) (snd x)) (Found (fst y) (snd y))) l ->
  StronglySorted R (List.map (fun e => Found (fst e) (snd e)) l).
Proof.
  induction 1 as [|x l Hsorted IH Hx]; cbn [List.map]; constructor; [exact IH|].
  apply List.Forall_map. exact Hx.
Qed.

(** X28. When every field of the sort holds numbers other than NaN, or
    strings, in all the documents that satisfy the conditions, the
    results of [query] are in order: no result compares greater than a
    later one. For a sort on one field that holds integers, the values of
    that field ascend, or descend, along the results. *)
Theorem query_results_are_in_order conditions sortEntries db :
  comparable sortEntries (List.map snd (matching conditions db)) ->
  ordered (fun r s => compareEntries sortEntries (fdata r) (fdata s))
          (query conditions (Some sortEntries) None db) /\
  forall f direction, sortEntries = [(f, direction)] ->
    (forall key d, In (key, d) (matching conditions db) -> exists x, prop d f = VNum x) ->
    StronglySorted
      (fun r s => match prop (fdata r) f, prop (fdata s) f, direction with
                  | VNum x, VNum y, asc => (x <= y)%Z
                  | VNum x, VNum y, desc => (y <= x)%Z
                  | _, _, _ => False
                  end)
      (query conditions (Some sortEntries) None db).
Proof.
  intros Hcomparable.
  assert (Hsorted :
            ordered (fun x y : string * doc => compareEntries sortEntries (snd x) (snd y))
                    (sort (fun x y => compareEntries sortEntries (snd x) (snd y))
                          (matching conditions db))).
  { apply sort_ordered. now apply comparable_consistent. }
  assert (Hdomain : Forall (fun e => In e (matching conditions db))
                      (sort (fun x y => compareEntries sortEntries (snd x) (snd y))
                            (matching conditions db))).
  { apply List.Forall_forall. intros e He.
    eapply Permutation_in; [apply sort_Permutation|exact He]. }
  split.
  - unfold query, ordered. apply StronglySorted_map_found. cbn [fdata]. exact Hsorted.
  - intros f direction -> Hnum. unfold query. apply StronglySorted_map_found. cbn [fdata].
    unfold ordered in Hsorted.
    induction Hsorted as [|e l Hl IH He]; [constructor|].
    apply Forall_cons_1 in Hdomain as [Hdom Hdomain].
    constructor; [now apply IH|].
    rewrite List.Forall_forall in He, Hdomain |- *. intros e' Hin.
    specialize (He e' Hin). specialize (Hdomain e' Hin).
    destruct e as [k1 d1], e' as [k2 d2]. cbn [snd] in *.
    destruct (Hnum k1 d1 Hdom) as [x Hx].
    destruct (Hnum k2 d2 Hdomain) as [y Hy].
    rewrite (compareEntries_numbers f direction [] d1 d2 x y Hx Hy) in He.
    rewrite Hx, Hy. cbn [compareEntries] in He.
    destruct (Z.eqb_spec x y), (Z.ltb_spec x y), direction; lia.
Qed.

End OrderProperties.

(** * The further properties on concrete collections *)

(** The first user of an empty collection gets the first candidate. *)
Lemma create_stores_document_witness :
  exists db',
    create (runtime := twice) 1 (user "Ann" 20)
           (fresh "people" emptyWorld userValidators 0) =
      Some (Normal (Some "0000000000000000"), db') /\
    data db' = [("0000000000000000", user "Ann" 20)] /\
    findById "0000000000000000" db' =
      Some (Found "0000000000000000" (user "Ann" 20)).
Proof.
  destruct (create_stores_document (runtime := twice) 1 (user "Ann" 20)
              (fresh "people" emptyWorld userValidators 0) 0)
    as (db' & Hcreate & Hdata & Hfound & _).
  - reflexivity.
  - intros j Hj. lia.
  - reflexivity.
  - lia.
  - reflexivity.
  - exists db'. split; [exact Hcreate|]. split; [exact Hdata|exact Hfound].
Defined.

(** No user has this identifier. *)
Lemma missing_identifier_is_left_alone_witness :
  update "ffffffffffffffff" {["age" := VNum 1]} pair = (Normal false, pair) /\
  delete "ffffffffffffffff" pair = (false, pair) /\
  findById "ffffffffffffffff" pair = None.
Proof.
  apply (missing_identifier_is_left_alone "ffffffffffffffff" {["age" := VNum 1]} pair).
  reflexivity.
Defined.

(** Ann's update is rolled back; the identifiers and Ben are as before. *)
Lemma update_keeps_identifiers_witness :
  List.map fst (data (snd (update "0000000000000000" {["age" := VNum 21]} pair))) =
    ["0000000000000000"; "1111111111111111"] /\
  JsMap.get (data (snd (update "0000000000000000" {["age" := VNum 21]} pair)))
            "1111111111111111" = Some (user "Ben" 30).
Proof.
  destruct (update_keeps_identifiers "0000000000000000" {["age" := VNum 21]} pair)
    as [Hkeys Hothers].
  split; [exact Hkeys|]. apply (Hothers "1111111111111111"). discriminate.
Defined.

(** Ann turns 21 and keeps her name. *)
Lemma update_applies_patch_witness :
  exists db' merged,
    update "00000000000000a1" {["age" := VNum 21]} (people emptyWorld) =
      (Normal true, db') /\
    findById "00000000000000a1" db' = Some (Found "00000000000000a1" merged) /\
    prop merged "age" = VNum 21 /\
    prop merged "name" = VStr "Ann".
Proof.
  destruct (update_applies_patch "00000000000000a1" {["age" := VNum 21]}
              (user "Ann" 20) (people emptyWorld))
    as (db' & merged & Hupdate & Hfound & Hpatched & Hkept & _).
  - reflexivity.
  - reflexivity.
  - reflexivity.
  - exists db', merged. split; [exact Hupdate|]. split; [exact Hfound|]. split.
    + apply Hpatched. reflexivity.
    + rewrite (Hkept "name" eq_refl). reflexivity.
Defined.

(** The world refuses the snapshot: [false], and Ann is gone. *)
Lemma delete_removes_only_that_identifier_witness :
  fst (delete "0000000000000000" pair) = false /\
  JsMap.has (data (snd (delete "0000000000000000" pair))) "0000000000000000" = false /\
  JsMap.get (data (snd (delete "0000000000000000" pair))) "1111111111111111" =
    Some (user "Ben" 30).
Proof.
  destruct (delete_removes_only_that_identifier "0000000000000000" pair)
    as (Hresult & Hgone & _ & Hothers).
  split; [rewrite Hresult; reflexivity|]. split; [exact Hgone|].
  apply (Hothers "1111111111111111"). discriminate.
Defined.

Lemma deleteMany_removes_all_witness :
  List.length (fst (deleteMany ["0000000000000000"; "ffffffffffffffff"] pair)) = 2 /\
  JsMap.has (data (snd (deleteMany ["0000000000000000"; "ffffffffffffffff"] pair)))
            "0000000000000000" = false /\
  JsMap.get (data (snd (deleteMany ["0000000000000000"; "ffffffffffffffff"] pair)))
            "1111111111111111" = Some (user "Ben" 30).
Proof.
  destruct (deleteMany_removes_all ["0000000000000000"; "ffffffffffffffff"] pair)
    as (Hlength & Hgone & Hothers).
  split; [exact Hlength|]. split.
  - apply Hgone. now left.
  - apply (Hothers "1111111111111111"). intros [H|[H|[]]]; discriminate.
Defined.

(** Ann is the first user of age 20, before Cid. *)
Lemma findOne_first_match_witness :
  match findOne (fun d => strictEquals (prop d "age") (VNum 20)) (people emptyWorld) with
  | Some r =>
      strictEquals (prop (fdata r) "age") (VNum 20) = true /\
      exists before after,
        data (people emptyWorld) = before ++ (id r, fdata r) :: after /\
        forall e, In e before -> strictEquals (prop (snd e) "age") (VNum 20) = false
  | None =>
      forall e, In e (data (people emptyWorld)) ->
                strictEquals (prop (snd e) "age") (VNum 20) = false
  end.
Proof.
  exact (findOne_first_match (fun d => strictEquals (prop d "age") (VNum 20))
           (people emptyWorld)).
Defined.

Lemma findById_finds_entries_witness :
  findById "00000000000000c1" (people emptyWorld) =
  Some (Found "00000000000000c1" (user "Cid" 20)).
Proof.
  apply (findById_finds_entries "00000000000000c1" (user "Cid" 20) (people emptyWorld)).
  - apply (bool_decide_unpack _). reflexivity.
  - right. left. reflexivity.
Defined.

(** The name of Ann contains ["nn"]; the search puts both in lower case. *)
Lemma findLike_finds_literal_match_witness :
  In (Found "00000000000000a1" (user "Ann" 20))
     (findLike (runtime := twice) "nn" None (people emptyWorld)).
Proof.
  apply (findLike_finds_literal_match (runtime := twice) "nn" None "00000000000000a1"
           (user "Ann" 20) "name" (people emptyWorld)).
  - left. reflexivity.
  - left. split; [reflexivity|]. vm_compute. discriminate.
  - reflexivity.
  - reflexivity.
  - reflexivity.
Defined.

(** Beyond ASCII a match in the text as it is may be lost: at the end of
    the term the capital sigma is lowered to the final sigma, inside the
    name to the other one. *)
Example findLike_misses_match_beyond_ascii :
  includes star (greek [193; 211]) = true /\
  toLowerCase (runtime := twice) (greek [193; 211]) = greek [225; 242] /\
  toLowerCase (runtime := twice) star = greek [225; 243; 244; 229; 241; 233] /\
  findLike (runtime := twice) (greek [193; 211]) None stars = [].
Proof. repeat split; vm_compute; reflexivity. Qed.



(** Ann is 20: [age <= 30] holds and [age > 30] does not. With an age of
    NaN neither holds. *)
Lemma comparisons_on_same_kind_witness :
  evaluateCondition (runtime := twice) (user "Ann" 20)
    {| field := "age"; operator := OpLe; cvalue := VNum 30 |} =
  negb (evaluateCondition (runtime := twice) (user "Ann" 20)
          {| field := "age"; operator := OpGt; cvalue := VNum 30 |}) /\
  evaluateCondition (runtime := twice) (<["age" := VNaN]> (user "Ann" 20))
    {| field := "age"; operator := OpLe; cvalue := VNum 30 |} = false /\
  evaluateCondition (runtime := twice) (<["age" := VNaN]> (user "Ann" 20))
    {| field := "age"; operator := OpGt; cvalue := VNum 30 |} = false.
Proof.
  split.
  - pose proof (comparisons_on_same_kind (runtime := twice) (user "Ann" 20) "age" (VNum 30))
      as Hlinear.
    cbv zeta in Hlinear. destruct Hlinear as (Hlinear & _).
    destruct Hlinear as (Hle & _); [left; split; reflexivity|exact Hle].
  - pose proof (comparisons_on_same_kind (runtime := twice)
                  (<["age" := VNaN]> (user "Ann" 20)) "age" (VNum 30)) as Hnan.
    cbv zeta in Hnan. destruct Hnan as (_ & Hnan).
    destruct Hnan as (_ & Hgt & Hle & _); [left; reflexivity|].
    split; [exact Hle|exact Hgt].
Defined.

(** The name of Ann starts with ["an"], so it contains it. *)
Lemma string_conditions_imply_contains_witness :
  evaluateCondition (runtime := twice) (user "Ann" 20)
    {| field := "name"; operator := OpContains; cvalue := VStr "an" |} = true.
Proof.
  pose proof (string_conditions_imply_contains (runtime := twice) (user "Ann" 20)
                "name" (VStr "an")) as Himplied.
  cbv zeta in Himplied. destruct Himplied as (Hstarts & _).
  apply Hstarts. reflexivity.
Defined.

Lemma query_limit_takes_prefix_witness :
  List.length (query (runtime := twice) [] None (Some 2%Z) (people emptyWorld)) = 2.
Proof.
  destruct (query_limit_takes_prefix (runtime := twice) [] None 2%Z (people emptyWorld))
    as (_ & Hlength & _).
  - lia.
  - rewrite Hlength. reflexivity.
Defined.


Lemma saved_snapshot_loads_back_witness :
  construct "people"
    {| properties := [("people", export (people emptyWorld))]; capacity := 100 |}
    None 7 =
  Normal {| collectionName := "people";
            storageType :=
              {| properties := [("people", export (people emptyWorld))];
                 capacity := 100 |};
            collectionValidators := None;
            data := data (people emptyWorld); drawn := 7 |}.
Proof.
  apply (saved_snapshot_loads_back (people emptyWorld)
           {| properties := [("people", export (people emptyWorld))]; capacity := 100 |} 7).
  - vm_compute. lia.
  - vm_compute. lia.
  - reflexivity.
  - apply (bool_decide_unpack _). reflexivity.
  - intros key d _. reflexivity.
  - intros key d [[= <- <-]|[[= <- <-]|[[= <- <-]|[]]]]; reflexivity.
Defined.


Lemma bulk_operations_keep_invariants_witness :
  allValid (snd (deleteMany ["0000000000000000"] pair)) /\
  JsMap.uniqueKeys (data (snd (deleteMany ["0000000000000000"] pair))).
Proof.
  destruct (bulk_operations_keep_invariants (runtime := twice) pair) as (_ & _ & Hdelete).
  - intros key d [[= <- <-]|[[= <- <-]|[]]]; reflexivity.
  - apply (bool_decide_unpack _). reflexivity.
  - apply Hdelete.
Defined.

(** Ann is created, the item with an empty name throws, Ben is not
    created. *)
Lemma createMany_stops_at_invalid_item_witness :
  exists db1,
    createMany (runtime := twice) 3 [user "Ann" 20; user "" 5; user "Ben" 30]
               (fresh "people" emptyWorld userValidators 0) =
      Some (Throw "Invalid data format", db1) /\
    data db1 = [("0000000000000000", user "Ann" 20)].
Proof.
  eexists. split.
  - eapply (createMany_stops_at_invalid_item (runtime := twice) 3
              [user "Ann" 20] (user "" 5) [user "Ben" 30]).
    + reflexivity.
    + reflexivity.
  - reflexivity.
Defined.

Lemma createMany_results_find_items_witness :
  NoDup (identifiers (List.map Normal [Some "0000000000000000"; Some "1111111111111111"])).
Proof.
  eapply (proj2 (createMany_results_find_items (runtime := twice) 3
                   [user "Ann" 20; user "Ben" 30]
                   (fresh "people" emptyWorld userValidators 0)
                   [Some "0000000000000000"; Some "1111111111111111"] _ _)).
  Unshelve. 2: reflexivity.
Defined.

Lemma updateMany_keeps_identifiers_witness :
  List.map fst
    (data (snd (updateMany [("ffffffffffffffff", {["age" := VNum 1]});
                            ("0000000000000000", {["age" := VNum 0]})] pair))) =
  ["0000000000000000"; "1111111111111111"].
Proof.
  exact (proj1 (updateMany_keeps_identifiers
                  [("ffffffffffffffff", {["age" := VNum 1]});
                   ("0000000000000000", {["age" := VNum 0]})] pair)).
Defined.

(** The text does not parse: the older [import] throws, and the two users
    are gone. *)
Lemma legacy_import_is_not_atomic_witness :
  exists db', Legacy.import (Malformed "[[") pair = (Throw "SyntaxError", db') /\
              data db' = [].
Proof.
  apply (proj1 (legacy_import_is_not_atomic (Malformed "[[") pair)). reflexivity.
Defined.

Lemma legacy_load_skips_validation_witness :
  data (Legacy.initialize (fresh "people" mixedWorld userValidators 0)) =
  [("0000000000000000", user "Ann" 20); ("1111111111111111", user "" 30)].
Proof.
  rewrite (legacy_load_skips_validation "people" mixedWorld userValidators 0
             [("0000000000000000", omap toJSON (user "Ann" 20));
              ("1111111111111111", omap toJSON (user "" 30))]).
  - reflexivity.
  - reflexivity.
  - apply (bool_decide_unpack _). reflexivity.
Defined.

(** The world takes nothing, and the older [delete] reports [true]. *)
Lemma legacy_writes_ignore_the_host_witness :
  exists db', Legacy.delete "0000000000000000" pair = (true, db') /\
              JsMap.has (data db') "0000000000000000" = false.
Proof.
  destruct (legacy_writes_ignore_the_host "0000000000000000" (user "Ann" 20) ∅
              (user "Ann" 20) pair) as (_ & _ & Hdelete).
  apply Hdelete. reflexivity.
Defined.

(** A nickname has no validator. *)
Lemma update_outside_validated_fields_does_not_throw_witness :
  validate pair (spread (user "Ann" 20) {["nick" := VStr "A"]}) = true /\
  exists result db',
    update "0000000000000000" {["nick" := VStr "A"]} pair = (Normal result, db').
Proof.
  apply (update_outside_validated_fields_does_not_throw "0000000000000000"
           {["nick" := VStr "A"]} (user "Ann" 20) pair).
  - reflexivity.
  - reflexivity.
  - intros validators name validator [= <-] [[= <- <-]|[[= <- <-]|[]]];
      reflexivity.
Defined.

(** By age, the users come out as 20, 20, 30. *)
Lemma query_results_are_in_order_witness :
  StronglySorted
    (fun r s => match prop (fdata r) "age", prop (fdata s) "age", asc with
                | VNum x, VNum y, asc => (x <= y)%Z
                | VNum x, VNum y, desc => (y <= x)%Z
                | _, _, _ => False
                end)
    (query (runtime := twice) [] (Some [("age", asc)]) None (people emptyWorld)).
Proof.
  destruct (query_results_are_in_order (runtime := twice) [] [("age", asc)]
              (people emptyWorld)) as (_ & Hone).
  - intros f direction [[= <- <-]|[]]. left. rewrite matching_nil.
    intros d [<-|[<-|[<-|[]]]]; reflexivity.
  - apply (Hone "age" asc); [reflexivity|].
    intros key d Hin. rewrite matching_nil in Hin.
    destruct Hin as [[= <- <-]|[[= <- <-]|[[= <- <-]|[]]]]; eexists; reflexivity.
Defined.
